(** * SlideSlowGenerator: a shallow embedding of [process.py]

    The program turns a folder of pictures into fixed-size slides.  It has
    two parts: the compositor ([crop_to_aspect_ratio], [process_image]) that
    pads a picture to a 5:3 canvas and stretches it to the target size, and
    the walker ([resize_images_in_folder]) that keeps a JSON ledger of the
    inputs already converted, numbers the new outputs and deletes the
    outputs whose inputs are gone.

    Modelling choices, stated once:
    - a picture is its size; the pixels play no part in any property below;
    - at the program's own ratio [5 / 3], Python's float arithmetic
      ([5 / 3], [w / h], [int (h * r)]) is taken as exact arithmetic on
      fractions: [int] truncates ([Z.quot]) and [//] floors ([Z.div]).
      Module [Binary64] repeats the two size computations on IEEE
      doubles, and the two are compared on a range of sizes and at every
      input used as an example;
    - for a target ratio that is any other double the rounding matters
      ([int (10 * 0.3)] is 3): module [Rounded] computes
      [crop_to_aspect_ratio] on doubles, each operation the exact result
      rounded to the nearest double, and is compared with the primitive
      doubles in turn;
    - the Pillow calls are modelled by what they do to the size of a
      picture and by the exceptions they raise on degenerate sizes;
    - the file system is a finite map from paths to files; directories and
      permissions are not modelled, so [os.remove] and [save] succeed. *)

From Stdlib Require Import ZArith Lia Ascii String Floats.
From Stdlib Require Import QArith Qround Qpower Lqa.
From stdpp Require Import base gmap strings list pretty.

Local Open Scope Z_scope.

(** ** Exceptions and fallible values *)

Inductive exn :=
| ZeroDivisionError
| ValueError
| TypeError
| KeyError
| UnidentifiedImageError
| FileNotFoundError.

Inductive result (A : Type) :=
| Ok (a : A)
| Err (e : exn).
Arguments Ok {A} a.
Arguments Err {A} e.

#[global] Instance result_bind : MBind result := fun A B k r =>
  match r with
  | Ok a => k a
  | Err e => Err e
  end.

(** ** Pictures and ratios *)

Record image := { width : Z; height : Z }.

(** A ratio [num / den]; the floats the program uses are positive, which
    is [0 < num] and [0 < den]. *)
Record ratio := { num : Z; den : Z }.

(** [a / b > r], for a positive [b] and a positive denominator. *)
Definition div_gt (a b : Z) (r : ratio) : bool :=
  bool_decide (num r * b < a * den r).

(** [int (x * r)]. *)
Definition int_mul (x : Z) (r : ratio) : Z := Z.quot (x * num r) (den r).

(** [int (x / r)]; dividing by a zero float raises. *)
Definition int_div (x : Z) (r : ratio) : result Z :=
  if decide (num r = 0) then Err ZeroDivisionError
  else Ok (Z.quot (x * den r) (num r)).

(** [round (p / q)] for [0 < q]: Python rounds halves to the even
    neighbour. *)
Definition py_round (p q : Z) : Z :=
  let f := p `div` q in
  let r2 := 2 * (p `mod` q) in
  if decide (r2 < q) then f
  else if decide (q < r2) then f + 1
  else if Z.even f then f else f + 1.

(** ** The Pillow operations the program calls, at the level of sizes *)

Module PIL.

Definition box : Type := Z * Z * Z * Z.

(** [image.crop((left, upper, right, lower))]: an empty region is
    allowed, a reversed one is refused. *)
Definition crop (im : image) (b : box) : result image :=
  let '(x0, y0, x1, y1) := b in
  if decide (x1 < x0) then Err ValueError
  else if decide (y1 < y0) then Err ValueError
  else Ok {| width := x1 - x0; height := y1 - y0 |}.

(** [img.filter(ImageFilter.GaussianBlur(25))] keeps the size. *)
Definition gaussian_blur (im : image) : image := im.

(** [Image.new("RGB", size, (0, 0, 0))]. *)
Definition new (size : Z * Z) : result image :=
  if decide (fst size < 0 \/ snd size < 0) then Err ValueError
  else Ok {| width := fst size; height := snd size |}.

(** [background.paste(img, position)] overwrites pixels in place. *)
Definition paste (background img : image) (position : Z * Z) : image :=
  background.

(** [image.resize(size)]: a copy when the size is already right,
    otherwise both dimensions have to be positive. *)
Definition resize (im : image) (size : Z * Z) : result image :=
  if decide ((width im, height im) = size) then Ok im
  else if decide (fst size < 1 \/ snd size < 1) then Err ValueError
  else Ok {| width := fst size; height := snd size |}.

(** [ImageOps.contain(image, size)]: compares [image.width /
    image.height] with [size[0] / size[1]], shrinks one side of [size]
    so that the ratio of [image] is kept, and resizes to it. *)
Definition contain (im : image) (size : Z * Z) : result image :=
  let '(w, h) := size in
  if decide (height im = 0) then Err ZeroDivisionError
  else if decide (h = 0) then Err ZeroDivisionError
  else if decide (width im * h = w * height im) then resize im (w, h)
  else if decide (w * height im < width im * h) then
    if decide (width im = 0) then Err ZeroDivisionError
    else
      let new_height := py_round (height im * w) (width im) in
      resize im (w, new_height)
  else
    let new_width := py_round (width im * h) (height im) in
    resize im (new_width, h).

End PIL.

(** ** The compositor *)

(** The crop rectangle of [crop_to_aspect_ratio], lines 17-36, in exact
    arithmetic; the program calls it with [5 / 3] only. *)
Definition crop_box (im : image) (target_ratio : ratio) : result PIL.box :=
  let original_width := width im in
  let original_height := height im in
  if decide (original_height = 0) then Err ZeroDivisionError
  else if div_gt original_width original_height target_ratio then
    let new_width := int_mul original_height target_ratio in
    let new_height := original_height in
    let left := (original_width - new_width) `div` 2 in
    let upper := 0 in
    Ok (left, upper, left + new_width, upper + new_height)
  else
    let new_width := original_width in
    new_height ← int_div original_width target_ratio;
    let left := 0 in
    let upper := (original_height - new_height) `div` 2 in
    Ok (left, upper, left + new_width, upper + new_height).

Definition crop_to_aspect_ratio (im : image) (target_ratio : ratio)
  : result image :=
  b ← crop_box im target_ratio;
  PIL.crop im b.

Definition target_aspect_ratio : ratio := {| num := 5; den := 3 |}.

(** The padded canvas of [process_image], lines 49-63. *)
Definition canvas_size (img : image) : result (Z * Z) :=
  let original_width := width img in
  let original_height := height img in
  if decide (original_height = 0) then Err ZeroDivisionError
  else if div_gt original_width original_height target_aspect_ratio then
    let new_width := original_width in
    new_height ← int_div new_width target_aspect_ratio;
    Ok (new_width, new_height)
  else
    let new_height := original_height in
    let new_width := int_mul new_height target_aspect_ratio in
    Ok (new_width, new_height).

(** [process_image] between decoding and saving, lines 49-85. *)
Definition composite (img : image) (blurred_background : bool)
    (target_width target_height : Z) : result image :=
  '(new_width, new_height) ← canvas_size img;
  let paste_position :=
    ((new_width - width img) `div` 2, (new_height - height img) `div` 2) in
  new_background ←
    (if blurred_background then
       cropped ←
         crop_to_aspect_ratio (PIL.gaussian_blur img) target_aspect_ratio;
       PIL.contain cropped (new_width, new_height)
     else PIL.new (new_width, new_height));
  let new_background := PIL.paste new_background img paste_position in
  PIL.resize new_background (target_width, target_height).

(** ** The same sizes on binary64 floats

    The operations of the source, float for float: [w / h] on two ints
    is the correctly rounded quotient, [5 / 3] is a double, and [int]
    drops the fraction. *)

Module Binary64.

Definition of_int (z : Z) : float := PrimFloat.of_uint63 (Uint63.of_Z z).

(** [int(x)] for a finite [x]. *)
Definition to_int (x : float) : Z :=
  match Prim2SF x with
  | S754_finite s m e =>
      let v := if 0 <=? e then Z.pos m * 2 ^ e else Z.pos m `div` 2 ^ (- e) in
      if s then - v else v
  | _ => 0
  end.

Definition target_aspect_ratio : float := (5 / 3)%float.

(** Lines 17-36 with [target_ratio = 5 / 3], for [0 < h]. *)
Definition crop_box (w h : Z) : PIL.box :=
  let original_ratio := (of_int w / of_int h)%float in
  if PrimFloat.ltb target_aspect_ratio original_ratio then
    let new_width := to_int (of_int h * target_aspect_ratio)%float in
    let new_height := h in
    let left := (w - new_width) `div` 2 in
    (left, 0, left + new_width, 0 + new_height)
  else
    let new_width := w in
    let new_height := to_int (of_int w / target_aspect_ratio)%float in
    let upper := (h - new_height) `div` 2 in
    (0, upper, 0 + new_width, upper + new_height).

(** Lines 49-63, for [0 < h]. *)
Definition canvas_size (w h : Z) : Z * Z :=
  let aspect_ratio := (of_int w / of_int h)%float in
  if PrimFloat.ltb target_aspect_ratio aspect_ratio then
    (w, to_int (of_int w / target_aspect_ratio)%float)
  else (to_int (of_int h * target_aspect_ratio)%float, h).

End Binary64.

(** The exact model and the doubles give the same canvas and the same
    crop rectangle for a picture of [w] by [h]. *)
Definition same_sizes (w h : Z) : bool :=
  match canvas_size {| width := w; height := h |},
        crop_box {| width := w; height := h |} target_aspect_ratio with
  | Ok (nw, nh), Ok (x0, y0, x1, y1) =>
      let '(fw, fh) := Binary64.canvas_size w h in
      let '(a0, b0, a1, b1) := Binary64.crop_box w h in
      (nw =? fw) && (nh =? fh)
      && (x0 =? a0) && (y0 =? b0) && (x1 =? a1) && (y1 =? b1)
  | _, _ => false
  end.

(** ... for all sizes from 1 to [n] in both directions. *)
Definition same_sizes_upto (n : nat) : bool :=
  forallb (fun w => forallb (fun h => same_sizes (Z.of_nat w) (Z.of_nat h))
                      (seq 1 n))
    (seq 1 n).

(** ** Strings and paths *)


Definition ascii_lower (c : ascii) : ascii :=
  let n := nat_of_ascii c in
  if (65 <=? n)%nat && (n <=? 90)%nat then ascii_of_nat (n + 32) else c.

(** [s.lower()], on the ASCII letters. *)
Fixpoint lower (s : string) : string :=
  match s with
  | EmptyString => EmptyString
  | String c s' => String (ascii_lower c) (lower s')
  end.

(** [s.endswith(suffix)]: some tail of [s] is [suffix]. *)
Fixpoint endswith (s suffix : string) : bool :=
  if decide (s = suffix) then true
  else match s with
       | EmptyString => false
       | String _ s' => endswith s' suffix
       end.

Definition startswith (s pre : string) : bool := String.prefix pre s.

(** [file.lower().endswith(('.jpg', '.jpeg', '.png'))], line 117. *)
Definition is_image_name (file : string) : bool :=
  let l := lower file in
  endswith l ".jpg" || endswith l ".jpeg" || endswith l ".png".

(** [os.path.join(a, b)] of posixpath, for two components. *)
Definition os_path_join (a b : string) : string :=
  if startswith b "/" then b
  else if bool_decide (a = "") || endswith a "/" then a +:+ b
  else a +:+ "/" +:+ b.

(** [f"{image_index}.jpg"]. *)
Definition numbered_name (image_index : nat) : string :=
  pretty image_index +:+ ".jpg".

(** ** JSON values, files and the world *)

#[local] Unset Elimination Schemes.
Inductive json :=
| JNull
| JBool (b : bool)
| JNum (n : Z)
| JStr (s : string)
| JArr (items : list json)
| JObj (fields : list (string * json)).
#[local] Set Elimination Schemes.

(** What a path of the file system holds: a picture Pillow decodes (its
    size is the one after EXIF transposition), a text [json.load] parses,
    an empty file, or bytes that are neither a picture nor JSON. *)
Inductive file :=
| Picture (im : image)
| JsonText (j : json)
| EmptyFile
| Garbage.

Record world := { fs : gmap string file; console : list string }.

Inductive outcome (A : Type) :=
| Returns (a : A) (w : world)
| Raises (e : exn) (w : world).
Arguments Returns {A} a w.
Arguments Raises {A} e w.

(** Computations of the program: they read and change the world and
    either return or raise. *)
Definition M (A : Type) : Type := world -> outcome A.

Definition ret {A} (a : A) : M A := fun w => Returns a w.

Definition raise {A} (e : exn) : M A := fun w => Raises e w.

Definition bind {A B} (m : M A) (k : A -> M B) : M B := fun w =>
  match m w with
  | Returns a w' => k a w'
  | Raises e w' => Raises e w'
  end.

Notation "x <- m ;; k" := (bind m (fun x => k))
  (at level 100, m at next level, right associativity).
Notation "m ;;; k" := (bind m (fun _ => k))
  (at level 100, right associativity).

Definition lift {A} (r : result A) : M A :=
  match r with
  | Ok a => ret a
  | Err e => raise e
  end.

(** [try: body except (handled): handler]. *)
Definition try_except {A} (body : M A) (handled : exn -> bool)
    (handler : M A) : M A := fun w =>
  match body w with
  | Returns a w' => Returns a w'
  | Raises e w' => if handled e then handler w' else Raises e w'
  end.

(** [for x in l: st = body x st]. *)
Fixpoint for_each {A S} (body : A -> S -> M S) (l : list A) (st : S) : M S :=
  match l with
  | [] => ret st
  | x :: l' => st' <- body x st ;; for_each body l' st'
  end.

Definition print (line : string) : M unit := fun w =>
  Returns () {| fs := fs w; console := console w ++ [line] |}.

Definition os_path_exists (path : string) : M bool := fun w =>
  Returns (bool_decide (is_Some (fs w !! path))) w.

Definition os_remove (path : string) : M unit := fun w =>
  match fs w !! path with
  | Some _ => Returns () {| fs := delete path (fs w); console := console w |}
  | None => Raises FileNotFoundError w
  end.

Definition write_file (path : string) (f : file) : M unit := fun w =>
  Returns () {| fs := <[path := f]> (fs w); console := console w |}.

(** [Image.open], [ImageOps.exif_transpose] and [convert("RGB")], lines
    43-47: they raise on a file that is not a picture. *)
Definition image_open (path : string) : M image := fun w =>
  match fs w !! path with
  | Some (Picture im) => Returns im w
  | Some _ => Raises UnidentifiedImageError w
  | None => Raises FileNotFoundError w
  end.

(** [json.load] of the opened file; [json.JSONDecodeError] is a
    [ValueError]. *)
Definition json_load (path : string) : M json := fun w =>
  match fs w !! path with
  | Some (JsonText j) => Returns j w
  | Some _ => Raises ValueError w
  | None => Raises FileNotFoundError w
  end.

(** ** The program, after the compositor *)

Definition process_image (input_path output_path : string)
    (blurred_background : bool) (target_width target_height : Z) : M unit :=
  img <- image_open input_path ;;
  new_background <-
    lift (composite img blurred_background target_width target_height) ;;
  write_file output_path (Picture new_background) ;;;
  print ("Image processed and saved as " +:+ output_path).

Definition json_warning (json_file : string) : string :=
  "Warning: " +:+ json_file
  +:+ " is empty or contains invalid JSON. Starting fresh.".

Definition is_ValueError (e : exn) : bool :=
  match e with ValueError => true | _ => false end.

Definition load_processed_images (json_file : string) : M (list json) :=
  found <- os_path_exists json_file ;;
  if found : bool then
    try_except
      (data <- json_load json_file ;;
       ret (match data with JArr items => items | _ => [] end))
      is_ValueError
      (print (json_warning json_file) ;;; ret [])
  else ret [].

Definition save_processed_images (json_file : string)
    (processed_images : list json) : M unit :=
  write_file json_file (JsonText (JArr processed_images)).

(** [img[key]] for a ledger entry whose fields are strings.  A value
    that is not an object, or a field that is not a string, is reported
    as [TypeError]; a missing key as [KeyError].  (Python itself goes on
    with a number, a boolean or null under ["input_path"]; the ledgers
    that [save_processed_images] writes hold strings only.) *)
Fixpoint lookup_field (key : string) (fields : list (string * json))
  : option json :=
  match fields with
  | [] => None
  | (k, v) :: rest => if decide (k = key) then Some v else lookup_field key rest
  end.

Definition get_str (img : json) (key : string) : result string :=
  match img with
  | JObj fields =>
      match lookup_field key fields with
      | Some (JStr s) => Ok s
      | Some _ => Err TypeError
      | None => Err KeyError
      end
  | _ => Err TypeError
  end.

(** [{"input_path": input_path, "output_path": output_path}]. *)
Definition entry (input_path output_path : string) : json :=
  JObj [("input_path", JStr input_path); ("output_path", JStr output_path)].

(** [{img['input_path'] for img in processed_images}], line 109. *)
Fixpoint input_paths (processed_images : list json) : result (gset string) :=
  match processed_images with
  | [] => Ok ∅
  | img :: rest =>
      p ← get_str img "input_path";
      paths ← input_paths rest;
      Ok ({[p]} ∪ paths)
  end.

Record config := {
  output_folder : string;
  json_file : string;
  blurred_background : bool;
  target_width : Z;
  target_height : Z
}.

(** The variables the first loop updates. *)
Record walk_state := {
  processed_images : list json;
  processed_paths : gset string;
  image_index : nat;
  current_input_paths : gset string
}.

(** [len(processed_images)], bumped when it is not zero: lines 110-112. *)
Definition start_index (loaded : list json) : nat :=
  let image_index := length loaded in
  if decide (image_index ≠ 0%nat) then (image_index + 1)%nat else image_index.

(** The body of the inner loop for one file that has an image
    extension, lines 118-136. *)
Definition visit (cfg : config) (input_path : string) (st : walk_state)
  : M walk_state :=
  let current := {[input_path]} ∪ current_input_paths st in
  if decide (input_path ∈ processed_paths st) then
    print ("Skipping " +:+ input_path +:+ " (already processed)") ;;;
    ret {| processed_images := processed_images st;
           processed_paths := processed_paths st;
           image_index := image_index st;
           current_input_paths := current |}
  else
    let output_path :=
      os_path_join (output_folder cfg) (numbered_name (image_index st)) in
    process_image input_path output_path (blurred_background cfg)
      (target_width cfg) (target_height cfg) ;;;
    ret {| processed_images :=
             processed_images st ++ [entry input_path output_path];
           processed_paths := {[input_path]} ∪ processed_paths st;
           image_index := (image_index st + 1)%nat;
           current_input_paths := current |}.

(** Lines 115-117: [os.walk] yields a directory and the names of its
    files; [listing] is the sequence it yields for the input folder. *)
Definition visit_file (cfg : config) (root file : string) (st : walk_state)
  : M walk_state :=
  if is_image_name file then visit cfg (os_path_join root file) st
  else ret st.

Definition visit_directory (cfg : config) (dir : string * list string)
    (st : walk_state) : M walk_state :=
  for_each (visit_file cfg (fst dir)) (snd dir) st.

(** One turn of the pruning loop, lines 140-147. *)
Definition prune_step (current : gset string) (img : json)
    (updated_processed_images : list json) : M (list json) :=
  input_path <- lift (get_str img "input_path") ;;
  if decide (input_path ∉ current) then
    output_path <- lift (get_str img "output_path") ;;
    found <- os_path_exists output_path ;;
    (if found : bool then
       os_remove output_path ;;;
       print ("Deleted output image " +:+ output_path
              +:+ " because the input was removed.")
     else ret ()) ;;;
    ret updated_processed_images
  else ret (updated_processed_images ++ [img]).

(** Lines 109-150: the run once the ledger is loaded. *)
Definition sync_ledger (cfg : config) (listing : list (string * list string))
    (loaded : list json) : M unit :=
  paths <- lift (input_paths loaded) ;;
  st <- for_each (visit_directory cfg) listing
          {| processed_images := loaded;
             processed_paths := paths;
             image_index := start_index loaded;
             current_input_paths := ∅ |} ;;
  updated_processed_images <-
    for_each (prune_step (current_input_paths st)) (processed_images st) [] ;;
  save_processed_images (json_file cfg) updated_processed_images.

Definition resize_images_in_folder (cfg : config)
    (listing : list (string * list string)) : M unit :=
  loaded <- load_processed_images (json_file cfg) ;;
  sync_ledger cfg listing loaded.

(** The paths the walk visits, in order. *)
Definition discovered (listing : list (string * list string)) : list string :=
  dir ← listing;
  os_path_join (fst dir) <$> filter (fun file => is_image_name file = true) (snd dir).

(** The ledger a world holds, as [load_processed_images] reads it. *)
Definition ledger_of (cfg : config) (w : world) : list json :=
  match fs w !! json_file cfg with
  | Some (JsonText (JArr items)) => items
  | _ => []
  end.

(** ** Vocabulary of the statements *)

(** The entry names an input path that belongs to [current]: the test
    of line 141 that keeps an entry. *)
Definition recorded_in (current : gset string) (img : json) : bool :=
  match get_str img "input_path" with
  | Ok p => bool_decide (p ∈ current)
  | Err _ => false
  end.

(** The state in which the first loop starts, lines 108-114. *)
Definition initial_state (loaded : list json) (paths : gset string)
  : walk_state :=
  {| processed_images := loaded;
     processed_paths := paths;
     image_index := start_index loaded;
     current_input_paths := ∅ |}.

Definition output_name (cfg : config) (image_index : nat) : string :=
  os_path_join (output_folder cfg) (numbered_name image_index).

Definition say (lines : list string) (w : world) : world :=
  {| fs := fs w; console := console w ++ lines |}.

(** The entries appended for the pairs (input path, output path). *)
Definition entries (news : list (string * string)) : list json :=
  (fun po => entry po.1 po.2) <$> news.

(** The set [current_input_paths] once the walk is over. *)
Definition seen (listing : list (string * list string)) : gset string :=
  list_to_set (discovered listing).

(** The world in which the run continues after loading: a file that is
    there and is not JSON costs one warning line. *)
Definition after_load (cfg : config) (w : world) : world :=
  match fs w !! json_file cfg with
  | None | Some (JsonText _) => w
  | Some _ => say [json_warning (json_file cfg)] w
  end.

Definition world_of {A} (o : outcome A) : world :=
  match o with
  | Returns _ w => w
  | Raises _ w => w
  end.

(** The ledger file is absent, empty, or not JSON. *)
Definition unreadable (f : option file) : Prop :=
  match f with
  | Some (JsonText _) => False
  | _ => True
  end.

(** ** A sample folder *)

Module Sample.

Definition cfg : config :=
  {| output_folder := "out";
     json_file := "out/processed_images.json";
     blurred_background := true;
     target_width := 2000;
     target_height := 1200 |}.

Definition photo : file := Picture {| width := 4000; height := 3000 |}.

(** Five photos and one file that is no picture; no ledger yet. *)
Definition fresh : world :=
  {| fs := <["in/a.jpg" := photo]> (<["in/b.jpg" := photo]>
           (<["in/c.jpg" := photo]> (<["in/d.jpg" := photo]>
           (<["in/e.jpg" := photo]> (<["in/broken.jpg" := Garbage]> ∅)))));
     console := [] |}.

Definition abc : list (string * list string) :=
  [("in", ["a.jpg"; "b.jpg"; "c.jpg"])].

Definition abcde : list (string * list string) :=
  [("in", ["a.jpg"; "b.jpg"; "c.jpg"; "d.jpg"; "e.jpg"])].

Definition only_a : list (string * list string) := [("in", ["a.jpg"])].

Definition only_c : list (string * list string) := [("in", ["c.jpg"])].

Definition c_and_d : list (string * list string) :=
  [("in", ["c.jpg"; "d.jpg"])].

Definition nothing : list (string * list string) := [("in", [])].

Definition broken_between : list (string * list string) :=
  [("in", ["a.jpg"; "broken.jpg"; "b.jpg"])].

(** The world after a first run over [abc]. *)
Definition after_abc : world :=
  world_of (resize_images_in_folder cfg abc fresh).

(** ... after a second run in which only [c.jpg] is left ... *)
Definition after_only_c : world :=
  world_of (resize_images_in_folder cfg only_c after_abc).

(** ... and after a third run in which [d.jpg] has been added. *)
Definition after_c_and_d : world :=
  world_of (resize_images_in_folder cfg c_and_d after_only_c).

(** The world after a first run over [only_a], and after a second run
    in which [a.jpg] has been removed from the folder. *)
Definition after_only_a : world :=
  world_of (resize_images_in_folder cfg only_a fresh).

Definition after_a_removed : world :=
  world_of (resize_images_in_folder cfg nothing after_only_a).

End Sample.

(** ** The claims that fail, as propositions *)

(** The claim of C9 at one picture: the canvas is computed, covers the
    picture and has exactly the ratio 5:3. *)
Definition canvas_exactly_5_3 (img : image) : Prop :=
  exists new_width new_height,
    canvas_size img = Ok (new_width, new_height) /\
    width img <= new_width /\ height img <= new_height /\
    3 * new_width = 5 * new_height.

(** C2 as stated: the run appends its new entries to the ledger it
    loaded, and their outputs are numbered from the number of entries
    loaded. *)
Definition numbering_starts_at_count (cfg : config)
    (listing : list (string * list string)) (w : world) : Prop :=
  forall w1, resize_images_in_folder cfg listing w = Returns () w1 ->
  exists news,
    ledger_of cfg w1 = ledger_of cfg w ++ entries news /\
    news.*2 =
      output_name cfg <$> seq (length (ledger_of cfg w)) (length news).

(** C3 as stated: the run returns, and every discovered picture that can
    be converted is recorded in the ledger it leaves. *)
Definition failures_are_isolated (cfg : config)
    (listing : list (string * list string)) (w : world) : Prop :=
  exists w1,
    resize_images_in_folder cfg listing w = Returns () w1 /\
    forall p img out,
      p ∈ discovered listing ->
      fs w !! p = Some (Picture img) ->
      composite img (blurred_background cfg) (target_width cfg)
        (target_height cfg) = Ok out ->
      exists o, entry p o ∈ ledger_of cfg w1.

(** C6 as stated: an unreadable ledger file loads as the empty ledger
    and costs a warning. *)
Definition loads_empty_with_warning (json_file : string) (w : world) : Prop :=
  unreadable (fs w !! json_file) ->
  load_processed_images json_file w =
  Returns [] (say [json_warning json_file] w).

(** ** More of the program *)

(** The paste position of [process_image], line 65. *)
Definition paste_position (img : image) (canvas : Z * Z) : Z * Z :=
  let '(new_width, new_height) := canvas in
  ((new_width - width img) `div` 2, (new_height - height img) `div` 2).

(** The listing with the names the walk would skip taken out. *)
Definition only_images (listing : list (string * list string))
  : list (string * list string) :=
  (fun dir => (dir.1, filter (fun file => is_image_name file = true) dir.2))
    <$> listing.

(** The input paths a ledger records, in order. *)
Definition paths_of (l : list json) : list string :=
  omap (fun img => match get_str img "input_path" with
                   | Ok p => Some p
                   | Err _ => None
                   end) l.

(** The entry has no ["input_path"]: it is not an object, or it is one
    without that key. *)
Definition lacks_input_path (img : json) : Prop :=
  match img with
  | JObj fields => lookup_field "input_path" fields = None
  | _ => True
  end.

(** A decimal digit. *)
Definition is_digit (c : ascii) : Prop :=
  (48 <= nat_of_ascii c <= 57)%nat.

(** What [os.path.join] puts before the second component when that one
    does not start with a slash. *)
Definition join_prefix (a : string) : string :=
  if bool_decide (a = "") || endswith a "/" then a else a +:+ "/".

(** The entries appended for the pairs (input path, output index). *)
Definition numbered_entries (cfg : config) (news : list (string * nat))
  : list json :=
  (fun pi => entry pi.1 (output_name cfg pi.2)) <$> news.

(** The output paths a ledger records, in order. *)
Definition outputs_of (l : list json) : list string :=
  omap (fun img => match get_str img "output_path" with
                   | Ok o => Some o
                   | Err _ => None
                   end) l.

(** The file [process_image] leaves at an output path. *)
Definition target_picture (cfg : config) : file :=
  Picture {| width := target_width cfg; height := target_height cfg |}.

(** The picture at [p] is one [process_image] converts under [cfg]. *)
Definition convertible (cfg : config) (w : world) (p : string) : Prop :=
  exists img,
    fs w !! p = Some (Picture img) /\
    0 < width img /\ 0 < height img /\
    (blurred_background cfg = false \/ 2 <= width img).

(** The entry has both fields, as strings. *)
Definition well_formed (img : json) : Prop :=
  exists p o,
    get_str img "input_path" = Ok p /\ get_str img "output_path" = Ok o.

(** A ledger whose outputs are numbered names, with distinct numbers
    that do not exceed its length. *)
Definition numbered_ledger (cfg : config) (l : list json) : Prop :=
  exists pis : list (string * nat),
    l = numbered_entries cfg pis /\
    NoDup pis.*2 /\
    forall i, i ∈ pis.*2 -> (i <= length l)%nat.

(** ** The script, lines 152-165

    [os.makedirs(output_folder, exist_ok=True)] creates a directory;
    directories are not part of the file map.  The call passes
    [target_height] where the function expects [target_width], and
    [target_width] where it expects [target_height]. *)

Module Script.

Definition input_folder : string := "***".
Definition output_folder : string := "***".
Definition blurred_background : bool := true.
Definition target_height : Z := 1200.
Definition target_width : Z := 2000.
Definition json_file : string :=
  os_path_join output_folder "processed_images.json".

(** The arguments in the order of the call, line 165, against the
    order of the parameters, line 106. *)
Definition cfg : config :=
  Build_config output_folder json_file blurred_background
    target_height target_width.

Definition main (listing : list (string * list string)) : M unit :=
  resize_images_in_folder cfg listing.

End Script.

(** The string does not start with a decimal digit. *)
Definition no_leading_digit (name : string) : Prop :=
  match name with
  | String c _ => ~ is_digit c
  | EmptyString => True
  end.

(** More listings of the sample folder. *)
Definition d_then_broken : list (string * list string) :=
  [("in", ["a.jpg"; "d.jpg"; "broken.jpg"])].

Definition notes_only : list (string * list string) :=
  [("in", ["notes.txt"; "a.jpg.bak"])].

(** A folder whose ledger holds c, d and e under the numbers 2, 4 and
    5, after e has been removed and f added. *)
Definition after_c_d_e : world :=
  {| fs := <[json_file Sample.cfg :=
               JsonText (JArr [entry "in/c.jpg" "out/2.jpg";
                               entry "in/d.jpg" "out/4.jpg";
                               entry "in/e.jpg" "out/5.jpg"])]>
           (<["in/c.jpg" := Sample.photo]> (<["in/d.jpg" := Sample.photo]>
           (<["in/f.jpg" := Sample.photo]>
           (<["out/2.jpg" := target_picture Sample.cfg]>
           (<["out/4.jpg" := target_picture Sample.cfg]>
           (<["out/5.jpg" := target_picture Sample.cfg]> ∅))))));
     console := [] |}.

Definition c_d_f : list (string * list string) :=
  [("in", ["c.jpg"; "d.jpg"; "f.jpg"])].

(** ** Doubles as rounded fractions

    For a target ratio that is not the program's own [5 / 3], the sizes
    depend on how the doubles round.  A finite double is the fraction it
    stands for; an operation computes exactly and rounds to the nearest
    double, halves to the even significand (53 bits, the smallest step
    [2 ^ -1074], infinity from [2 ^ 1024] on). *)

Definition pow2 (k : Z) : Q := (2 ^ k)%Q.

(** [floor (log2 x)] for [0 < x]. *)
Definition ilog2 (x : Q) : Z :=
  let c := Z.log2 (Qnum x) - Z.log2 (Z.pos (Qden x)) in
  if Qle_bool (pow2 c) x then c else c - 1.

Definition round_half_even (x : Q) : Z :=
  let f := Qfloor x in
  match (x - inject_Z f ?= 1 # 2)%Q with
  | Lt => f
  | Gt => f + 1
  | Eq => if Z.even f then f else f + 1
  end.

(** The exponent of the last place of the doubles around [x]. *)
Definition quantum (x : Q) : Z := Z.max (ilog2 x - 52) (- 1074).

Definition round_pos (x : Q) : Q :=
  let k := quantum x in
  (inject_Z (round_half_even (x / pow2 k)) * pow2 k)%Q.

(** The double nearest to [x]; [None] is an infinity. *)
Definition nearest (x : Q) : option Q :=
  match (x ?= 0)%Q with
  | Eq => Some 0%Q
  | Gt =>
      let y := round_pos x in
      if Qle_bool (pow2 1024) y then None else Some (Qred y)
  | Lt =>
      let y := round_pos (- x) in
      if Qle_bool (pow2 1024) y then None else Some (Qred (- y))
  end.

(** [x] is a finite double. *)
Definition is_double (x : Q) : bool :=
  match nearest x with
  | Some y => Qeq_bool y x
  | None => false
  end.

(** [int(x)] drops the fraction. *)
Definition trunc (x : Q) : Z := Z.quot (Qnum x) (Z.pos (Qden x)).

Module Rounded.

(** [OverflowError] is raised by [int] on an infinity and by the
    conversion of an int that is too large for a double. *)
Inductive fexn :=
| Exn (e : exn)
| OverflowError.

Inductive fresult (A : Type) :=
| FOk (a : A)
| FErr (e : fexn).
Arguments FOk {A} a.
Arguments FErr {A} e.

#[global] Instance fresult_bind : MBind fresult := fun A B k r =>
  match r with
  | FOk a => k a
  | FErr e => FErr e
  end.

(** [a / b] on two ints: the correctly rounded quotient. *)
Definition true_div (a b : Z) : fresult Q :=
  if decide (b = 0) then FErr (Exn ZeroDivisionError)
  else
    match nearest (inject_Z a / inject_Z b) with
    | Some q => FOk q
    | None => FErr OverflowError
    end.

(** [float(n)]. *)
Definition of_int (n : Z) : fresult Q :=
  match nearest (inject_Z n) with
  | Some q => FOk q
  | None => FErr OverflowError
  end.

(** [int(n * r)]. *)
Definition int_mul (n : Z) (r : Q) : fresult Z :=
  x ← of_int n;
  match nearest (x * r) with
  | Some p => FOk (trunc p)
  | None => FErr OverflowError
  end.

(** [int(n / r)]. *)
Definition int_div (n : Z) (r : Q) : fresult Z :=
  x ← of_int n;
  if Qeq_bool r 0 then FErr (Exn ZeroDivisionError)
  else
    match nearest (x / r) with
    | Some p => FOk (trunc p)
    | None => FErr OverflowError
    end.

(** The crop rectangle of [crop_to_aspect_ratio], lines 17-36, for a
    target ratio that is a finite double. *)
Definition crop_box (im : image) (target_ratio : Q) : fresult PIL.box :=
  let original_width := width im in
  let original_height := height im in
  original_ratio ← true_div original_width original_height;
  if Qlt_le_dec target_ratio original_ratio then
    new_width ← int_mul original_height target_ratio;
    let new_height := original_height in
    let left := (original_width - new_width) `div` 2 in
    let upper := 0 in
    FOk (left, upper, left + new_width, upper + new_height)
  else
    let new_width := original_width in
    new_height ← int_div original_width target_ratio;
    let left := 0 in
    let upper := (original_height - new_height) `div` 2 in
    FOk (left, upper, left + new_width, upper + new_height).

Definition crop_to_aspect_ratio (im : image) (target_ratio : Q)
  : fresult image :=
  b ← crop_box im target_ratio;
  match PIL.crop im b with
  | Ok out => FOk out
  | Err e => FErr (Exn e)
  end.

End Rounded.

(** The fraction a primitive double stands for. *)
Definition Q_of_float (x : float) : option Q :=
  match Prim2SF x with
  | S754_zero _ => Some 0%Q
  | S754_finite s m e =>
      let v := (inject_Z (Z.pos m) * pow2 e)%Q in
      Some (Qred (if s then - v else v)%Q)
  | _ => None
  end.

(** Lines 17-36 on the primitive doubles, float for float, for [0 < h]
    and sizes below [2 ^ 53]. *)
Definition crop_box_prim (w h : Z) (target_ratio : float) : PIL.box :=
  let original_ratio := (Binary64.of_int w / Binary64.of_int h)%float in
  if PrimFloat.ltb target_ratio original_ratio then
    let new_width := Binary64.to_int (Binary64.of_int h * target_ratio)%float in
    let new_height := h in
    let left := (w - new_width) `div` 2 in
    (left, 0, left + new_width, 0 + new_height)
  else
    let new_width := w in
    let new_height := Binary64.to_int (Binary64.of_int w / target_ratio)%float in
    let upper := (h - new_height) `div` 2 in
    (0, upper, 0 + new_width, upper + new_height).

(** The rounded fractions and the primitive doubles give the same crop
    rectangle for a picture of [w] by [h] and the ratio [r]. *)
Definition same_box (r : float) (w h : Z) : bool :=
  match Q_of_float r with
  | Some q =>
      match Rounded.crop_box {| width := w; height := h |} q with
      | Rounded.FOk (x0, y0, x1, y1) =>
          let '(a0, b0, a1, b1) := crop_box_prim w h r in
          (x0 =? a0) && (y0 =? b0) && (x1 =? a1) && (y1 =? b1)
      | _ => false
      end
  | None => false
  end.

Definition same_boxes_upto (r : float) (n : nat) : bool :=
  forallb (fun w => forallb (fun h => same_box r (Z.of_nat w) (Z.of_nat h))
                      (seq 1 n))
    (seq 1 n).

Definition same_option (a b : option Q) : bool :=
  match a, b with
  | Some x, Some y => Qeq_bool x y
  | None, None => true
  | _, _ => false
  end.

(** One multiplication and one division, rounded as above and by the
    primitive doubles. *)
Definition same_product (a b : float) : bool :=
  match Q_of_float a, Q_of_float b with
  | Some x, Some y => same_option (nearest (x * y)) (Q_of_float (a * b))
  | _, _ => false
  end.

Definition same_quotient (a b : float) : bool :=
  match Q_of_float a, Q_of_float b with
  | Some x, Some y => same_option (nearest (x / y)) (Q_of_float (a / b))
  | _, _ => false
  end.

(** The doubles written [0.3], [0.57] and [5 / 3]. *)
Definition three_tenths : Q := 5404319552844595 # 18014398509481984.
Definition fifty_seven_hundredths : Q := 5134103575202365 # 9007199254740992.
Definition five_thirds : Q := 7505999378950827 # 4503599627370496.

(** The exact arithmetic at [5 / 3] and the rounded fractions at the
    double [5 / 3] give the same crop rectangle. *)
Definition same_crop (w h : Z) : bool :=
  match crop_box {| width := w; height := h |} target_aspect_ratio,
        Rounded.crop_box {| width := w; height := h |} five_thirds with
  | Ok (x0, y0, x1, y1), Rounded.FOk (a0, b0, a1, b1) =>
      (x0 =? a0) && (y0 =? b0) && (x1 =? a1) && (y1 =? b1)
  | _, _ => false
  end.

(** * Properties of the compositor *)

Example composite_landscape :
  composite {| width := 4000; height := 3000 |} true 2000 1200
  = Ok {| width := 2000; height := 1200 |}.
Proof. reflexivity. Qed.

Example canvas_portrait :
  canvas_size {| width := 3000; height := 4000 |} = Ok (6666, 4000).
Proof. reflexivity. Qed.

Example crop_box_square :
  crop_box {| width := 10; height := 10 |} target_aspect_ratio
  = Ok (0, 2, 10, 8).
Proof. reflexivity. Qed.

(** An odd difference: 11 rows are cut to 6, two rows go above and three
    below. *)
Example crop_box_odd :
  crop_box {| width := 11; height := 11 |} target_aspect_ratio
  = Ok (0, 2, 11, 8).
Proof. reflexivity. Qed.

Example is_image_name_upper : is_image_name "Holiday.JPG" = true.
Proof. reflexivity. Qed.

Example is_image_name_other : is_image_name "notes.txt" = false.
Proof. reflexivity. Qed.

Example os_path_join_plain : os_path_join "out" (numbered_name 12) = "out/12.jpg".
Proof. reflexivity. Qed.

(** The exact arithmetic of the model against the doubles of the
    source. *)
Example same_sizes_small : same_sizes_upto 150 = true.
Proof. vm_compute. reflexivity. Qed.

Example same_sizes_photos :
  forallb (fun wh => same_sizes wh.1 wh.2)
    [(4000, 3000); (3000, 4000); (1920, 1080); (1080, 1920); (1000, 1000);
     (6000, 3600); (5, 3); (1, 1); (1, 100); (100, 1); (7680, 4320);
     (65535, 65535); (3, 65535); (65535, 2)] = true.
Proof. vm_compute. reflexivity. Qed.

Lemma quot_floor (a b : Z) :
  0 <= a -> 0 < b -> Z.quot a b * b <= a < (Z.quot a b + 1) * b.
Proof.
  intros Ha Hb. rewrite Z.quot_div_nonneg by lia.
  pose proof (Z.div_mod a b ltac:(lia)) as Hdm.
  pose proof (Z.mod_pos_bound a b Hb) as Hm. nia.
Qed.

Lemma half_floor (d : Z) :
  0 <= d -> d `div` 2 = Z.quot d 2 /\ 0 <= d `div` 2 /\
  d - d `div` 2 = d `div` 2 + d `mod` 2 /\ 0 <= d `mod` 2 <= 1.
Proof.
  intros Hd. rewrite Z.quot_div_nonneg by lia.
  pose proof (Z.div_mod d 2 ltac:(lia)) as Hdm.
  pose proof (Z.mod_pos_bound d 2 ltac:(lia)) as Hm. lia.
Qed.

Lemma div_gt_true (a b : Z) (r : ratio) :
  div_gt a b r = true <-> num r * b < a * den r.
Proof. unfold div_gt. apply bool_decide_eq_true. Qed.

Lemma div_gt_false (a b : Z) (r : ratio) :
  div_gt a b r = false <-> a * den r <= num r * b.
Proof. unfold div_gt. rewrite bool_decide_eq_false. lia. Qed.

(** What the two size computations return, branch by branch. *)
Lemma canvas_size_cases (img : image) :
  0 < height img ->
  canvas_size img =
  Ok (if div_gt (width img) (height img) target_aspect_ratio
      then (width img, Z.quot (width img * 3) 5)
      else (Z.quot (height img * 5) 3, height img)).
Proof.
  intros Hh. unfold canvas_size. rewrite decide_False by lia.
  by destruct (div_gt (width img) (height img) target_aspect_ratio).
Qed.

Lemma crop_size_cases (im : image) (r : ratio) :
  0 < width im -> 0 < height im -> 0 < num r -> 0 < den r ->
  crop_to_aspect_ratio im r =
  Ok (if div_gt (width im) (height im) r
      then {| width := int_mul (height im) r; height := height im |}
      else {| width := width im;
              height := Z.quot (width im * den r) (num r) |}).
Proof.
  intros Hw Hh Hn Hd. unfold crop_to_aspect_ratio, crop_box, int_div.
  rewrite !(decide_False (P := _ = 0)) by lia.
  destruct (div_gt (width im) (height im) r); cbn [mbind result_bind PIL.crop].
  - pose proof (quot_floor (height im * num r) (den r) ltac:(nia) Hd) as Hq.
    fold (int_mul (height im) r) in Hq.
    rewrite !decide_False by nia. do 2 f_equal; lia.
  - pose proof (quot_floor (width im * den r) (num r) ltac:(nia) Hn) as Hq.
    rewrite !decide_False by nia. do 2 f_equal; lia.
Qed.

(** ** Rounding to the nearest double *)

Section Rounding.
Local Open Scope Q_scope.

Lemma pow2_pos k : 0 < pow2 k.
Proof. apply Qpower_0_lt. reflexivity. Qed.

Lemma pow2_add a b : pow2 (a + b) == pow2 a * pow2 b.
Proof. apply Qpower_plus. discriminate. Qed.

Lemma pow2_succ a : pow2 (a + 1) == 2 * pow2 a.
Proof. rewrite pow2_add. unfold pow2 at 2. simpl. ring. Qed.

Lemma pow2_le a b : (a <= b)%Z -> pow2 a <= pow2 b.
Proof. intros. apply Qpower_le_compat_l; [assumption | discriminate]. Qed.

Lemma pow2_lt a b : (a < b)%Z -> pow2 a < pow2 b.
Proof. intros. apply Qpower_lt_compat_l; [assumption | reflexivity]. Qed.

Lemma pow2_lt_inv a b : pow2 a < pow2 b -> (a < b)%Z.
Proof. intros. eapply Qpower_lt_compat_l_inv; [eassumption | reflexivity]. Qed.

Lemma pow2_Z k : (0 <= k)%Z -> pow2 k == inject_Z (2 ^ k).
Proof. intros. symmetry. apply (Zpower_Qpower 2 k). assumption. Qed.

Lemma pow2_cancel a b : pow2 a * pow2 (b - a) == pow2 b.
Proof. rewrite <- pow2_add. replace (a + (b - a))%Z with b by lia. reflexivity. Qed.

Lemma Z_log2_Q n : (0 < n)%Z ->
  pow2 (Z.log2 n) <= inject_Z n /\ inject_Z n < 2 * pow2 (Z.log2 n).
Proof.
  intros Hn. destruct (Z.log2_spec n Hn) as [H1 H2].
  pose proof (Z.log2_nonneg n) as H0.
  split.
  - rewrite pow2_Z by assumption. rewrite <- Zle_Qle. exact H1.
  - rewrite <- pow2_succ, pow2_Z by lia. rewrite <- Zlt_Qlt.
    replace (Z.log2 n + 1)%Z with (Z.succ (Z.log2 n)) by lia. exact H2.
Qed.

Lemma ilog2_spec x : 0 < x -> pow2 (ilog2 x) <= x /\ x < pow2 (ilog2 x + 1).
Proof.
  intros Hx. destruct x as [a b].
  assert (Ha : (0 < a)%Z).
  { unfold Qlt in Hx. simpl in Hx. lia. }
  destruct (Z_log2_Q a Ha) as [A1 A2].
  destruct (Z_log2_Q (Z.pos b) eq_refl) as [B1 B2].
  assert (Hab : (a # b) * inject_Z (Z.pos b) == inject_Z a).
  { rewrite (Qmake_Qdiv a b). field. discriminate. }
  unfold ilog2. simpl Qnum. simpl Qden.
  set (c := (Z.log2 a - Z.log2 (Z.pos b))%Z).
  pose proof (pow2_cancel (Z.log2 (Z.pos b)) (Z.log2 a)) as Hc.
  fold c in Hc.
  pose proof (pow2_pos c) as Pc.
  pose proof (pow2_pos (Z.log2 (Z.pos b))) as Pb.
  set (x := a # b) in *. set (B := inject_Z (Z.pos b)) in *.
  set (A := inject_Z a) in *.
  set (pb := pow2 (Z.log2 (Z.pos b))) in *. set (pa := pow2 (Z.log2 a)) in *.
  destruct (Qle_bool (pow2 c) x) eqn:E.
  - apply Qle_bool_iff in E. split; [exact E|].
    rewrite pow2_succ. set (pc := pow2 c) in *.
    clearbody x A B pa pb pc. nra.
  - assert (E' : x < pow2 c).
    { apply Qnot_le_lt. intros H. apply Qle_bool_iff in H. congruence. }
    replace (c - 1 + 1)%Z with c by lia. split; [|exact E'].
    pose proof (pow2_succ (c - 1)) as Hs.
    replace (c - 1 + 1)%Z with c in Hs by lia.
    set (pc := pow2 c) in *. set (pc1 := pow2 (c - 1)) in *.
    clearbody x A B pa pb pc pc1. nra.
Qed.

Lemma ilog2_unique x e : 0 < x -> pow2 e <= x -> x < pow2 (e + 1) -> ilog2 x = e.
Proof.
  intros Hx H1 H2. destruct (ilog2_spec x Hx) as [S1 S2].
  assert (e < ilog2 x + 1)%Z by (apply pow2_lt_inv; lra).
  assert (ilog2 x < e + 1)%Z by (apply pow2_lt_inv; lra).
  lia.
Qed.

Lemma ilog2_mono x y : 0 < x -> x <= y -> (ilog2 x <= ilog2 y)%Z.
Proof.
  intros Hx Hxy.
  destruct (ilog2_spec x Hx) as [S1 _].
  destruct (ilog2_spec y ltac:(lra)) as [_ S2].
  assert (ilog2 x < ilog2 y + 1)%Z by (apply pow2_lt_inv; lra).
  lia.
Qed.

Lemma ilog2_comp x y : 0 < x -> x == y -> ilog2 x = ilog2 y.
Proof.
  intros Hx Hxy. destruct (ilog2_spec y ltac:(lra)) as [S1 S2].
  apply ilog2_unique; lra.
Qed.

Lemma quantum_mono x y : 0 < x -> x <= y -> (quantum x <= quantum y)%Z.
Proof. intros Hx Hxy. pose proof (ilog2_mono x y Hx Hxy). unfold quantum. lia. Qed.

Lemma quantum_comp x y : 0 < x -> x == y -> quantum x = quantum y.
Proof. intros Hx Hxy. unfold quantum. rewrite (ilog2_comp x y Hx Hxy). reflexivity. Qed.

(** *** Halves to even *)

Lemma round_half_even_bounds x :
  (Qfloor x <= round_half_even x <= Qfloor x + 1)%Z.
Proof.
  unfold round_half_even.
  destruct (x - inject_Z (Qfloor x) ?= 1 # 2); [destruct (Z.even _)| |]; lia.
Qed.

Lemma round_half_even_Z n : round_half_even (inject_Z n) = n.
Proof.
  unfold round_half_even. rewrite Qfloor_Z.
  destruct (Qcompare_spec (inject_Z n - inject_Z n) (1 # 2)) as [H|H|H].
  - exfalso. lra.
  - reflexivity.
  - exfalso. lra.
Qed.

Lemma round_half_even_comp x y : x == y -> round_half_even x = round_half_even y.
Proof.
  intros H. unfold round_half_even. rewrite (Qfloor_comp x y H).
  assert (E : (x - inject_Z (Qfloor y) ?= 1 # 2) = (y - inject_Z (Qfloor y) ?= 1 # 2)).
  { apply Qcompare_comp; [rewrite H|]; reflexivity. }
  rewrite E. reflexivity.
Qed.

Lemma round_half_even_mono x y : x <= y -> (round_half_even x <= round_half_even y)%Z.
Proof.
  intros Hxy.
  pose proof (Qfloor_resp_le x y Hxy) as Hf.
  pose proof (round_half_even_bounds x) as Bx.
  pose proof (round_half_even_bounds y) as By.
  destruct (Z.eq_dec (Qfloor x) (Qfloor y)) as [E|NE]; [|lia].
  unfold round_half_even. rewrite E.
  destruct (Qcompare_spec (x - inject_Z (Qfloor y)) (1 # 2)) as [H1|H1|H1];
    destruct (Qcompare_spec (y - inject_Z (Qfloor y)) (1 # 2)) as [H2|H2|H2];
    try destruct (Z.even (Qfloor y)); try lia; exfalso; lra.
Qed.

Lemma round_half_even_le x n : x <= inject_Z n -> (round_half_even x <= n)%Z.
Proof.
  intros H. rewrite <- (round_half_even_Z n). apply round_half_even_mono, H.
Qed.

Lemma round_half_even_ge x n : inject_Z n <= x -> (n <= round_half_even x)%Z.
Proof.
  intros H. rewrite <- (round_half_even_Z n). apply round_half_even_mono, H.
Qed.

Lemma round_half_even_near x : x - 1 < inject_Z (round_half_even x).
Proof.
  pose proof (round_half_even_bounds x) as [B _].
  pose proof (Qlt_floor x) as F.
  rewrite Zle_Qle in B. rewrite inject_Z_plus in F. change (inject_Z 1) with 1 in F. lra.
Qed.

(** *** Rounding a positive fraction *)

Lemma div_pow2 x k : x / pow2 k * pow2 k == x.
Proof. field. pose proof (pow2_pos k). lra. Qed.

Lemma round_pos_comp x y : 0 < x -> x == y -> round_pos x == round_pos y.
Proof.
  intros Hx Hxy. unfold round_pos. rewrite (quantum_comp x y Hx Hxy).
  rewrite (round_half_even_comp (x / pow2 (quantum y)) (y / pow2 (quantum y))).
  - reflexivity.
  - rewrite Hxy. reflexivity.
Qed.

Lemma round_pos_mono x y : 0 < x -> x <= y -> round_pos x <= round_pos y.
Proof.
  intros Hx Hxy.
  pose proof (quantum_mono x y Hx Hxy) as Hk.
  unfold round_pos.
  set (kx := quantum x) in *. set (ky := quantum y) in *.
  pose proof (pow2_pos kx) as Pkx. pose proof (pow2_pos ky) as Pky.
  destruct (Z.eq_dec kx ky) as [E|NE].
  - rewrite E.
    apply Qmult_le_compat_r; [|lra].
    rewrite <- Zle_Qle. apply round_half_even_mono.
    apply Qmult_le_compat_r; [exact Hxy|].
    apply Qlt_le_weak, Qinv_lt_0_compat, Pky.
  - assert (Hlt : (kx < ky)%Z) by lia.
    destruct (ilog2_spec x Hx) as [_ Xhi].
    destruct (ilog2_spec y ltac:(lra)) as [Y1 _].
    assert (Hky : ky = (ilog2 y - 52)%Z) by (unfold kx, ky, quantum in *; lia).
    assert (Hex : (ilog2 x + 1 <= ilog2 y)%Z) by (unfold kx, ky, quantum in *; lia).
    apply Qle_trans with (pow2 (ilog2 y)).
    + assert (Hn : (0 <= ilog2 y - kx)%Z) by lia.
      assert (Hr : (round_half_even (x / pow2 kx) <= 2 ^ (ilog2 y - kx))%Z).
      { apply round_half_even_le. rewrite <- pow2_Z by exact Hn.
        apply Qle_shift_div_r; [exact Pkx|].
        rewrite Qmult_comm, pow2_cancel.
        pose proof (pow2_le _ _ Hex). lra. }
      rewrite Zle_Qle in Hr. rewrite <- pow2_Z in Hr by exact Hn.
      rewrite <- (pow2_cancel kx (ilog2 y)).
      rewrite (Qmult_comm (pow2 kx)).
      apply Qmult_le_compat_r; [exact Hr | lra].
    + assert (Hr : (2 ^ 52 <= round_half_even (y / pow2 ky))%Z).
      { apply round_half_even_ge. rewrite <- pow2_Z by lia.
        apply Qle_shift_div_l; [exact Pky|].
        rewrite <- pow2_add. replace (52 + ky)%Z with (ilog2 y) by lia. exact Y1. }
      rewrite Zle_Qle in Hr. rewrite <- pow2_Z in Hr by lia.
      replace (ilog2 y) with (52 + ky)%Z by lia. rewrite pow2_add.
      apply Qmult_le_compat_r; [exact Hr | lra].
Qed.

(** A fraction [m * 2 ^ e] with a significand of at most 53 bits. *)
Lemma round_pos_exact x m e :
  (0 < m < 2 ^ 53)%Z -> (- 1074 <= e)%Z -> x == inject_Z m * pow2 e ->
  round_pos x == x.
Proof.
  intros Hm He Hx.
  assert (Px : 0 < x).
  { rewrite Hx. apply Qmult_lt_0_compat; [|apply pow2_pos].
    change 0 with (inject_Z 0). rewrite <- Zlt_Qlt. lia. }
  destruct (Z_log2_Q m ltac:(lia)) as [M1 M2].
  assert (Hl : (Z.log2 m < 53)%Z).
  { apply Z.log2_lt_pow2; lia. }
  assert (Hi : ilog2 x = (Z.log2 m + e)%Z).
  { pose proof (pow2_pos e) as Pe.
    apply ilog2_unique; [exact Px| |].
    - rewrite pow2_add, Hx. apply Qmult_le_compat_r; [exact M1 | lra].
    - replace (Z.log2 m + e + 1)%Z with (Z.log2 m + 1 + e)%Z by lia.
      rewrite pow2_add, pow2_succ, Hx. apply Qmult_lt_compat_r; [exact Pe | exact M2]. }
  unfold round_pos.
  assert (Hk : (quantum x <= e)%Z) by (unfold quantum; lia).
  set (k := quantum x) in *.
  assert (Hz : x / pow2 k == inject_Z (m * 2 ^ (e - k))).
  { rewrite inject_Z_mult, <- pow2_Z by lia.
    apply Qeq_trans with (inject_Z m * pow2 e / pow2 k).
    - rewrite Hx. reflexivity.
    - rewrite <- (pow2_cancel k e). field. pose proof (pow2_pos k). lra. }
  rewrite (round_half_even_comp _ _ Hz), round_half_even_Z.
  rewrite inject_Z_mult, <- pow2_Z by lia.
  rewrite Hx, <- (pow2_cancel k e). ring.
Qed.

Lemma round_pos_Z n : (0 < n < 2 ^ 53)%Z -> round_pos (inject_Z n) == inject_Z n.
Proof.
  intros Hn. apply (round_pos_exact _ n 0); [exact Hn | lia |].
  unfold pow2. simpl. ring.
Qed.

Lemma round_pos_half n :
  (0 <= n < 2 ^ 52)%Z -> round_pos (inject_Z n + (1 # 2)) == inject_Z n + (1 # 2).
Proof.
  intros Hn. apply (round_pos_exact _ (2 * n + 1) (- 1)); [lia | lia |].
  rewrite inject_Z_plus, inject_Z_mult. unfold pow2. simpl.
  change (inject_Z 2) with 2. change (inject_Z 1) with 1. field.
Qed.

(** The relative error of a result in the normal range. *)
Lemma round_pos_near x :
  pow2 (- 1022) <= x -> x * (1 - pow2 (- 52)) <= round_pos x.
Proof.
  intros Hx.
  assert (Px : 0 < x) by (pose proof (pow2_pos (- 1022)); lra).
  destruct (ilog2_spec x Px) as [Xlo Xhi].
  assert (Hi : (- 1022 <= ilog2 x)%Z).
  { assert (- 1022 < ilog2 x + 1)%Z by (apply pow2_lt_inv; lra). lia. }
  unfold round_pos.
  assert (Hk : quantum x = (ilog2 x - 52)%Z) by (unfold quantum; lia).
  set (k := quantum x) in *.
  pose proof (pow2_pos k) as Pk.
  pose proof (round_half_even_near (x / pow2 k)) as Hn.
  pose proof (div_pow2 x k) as Hd.
  assert (Hz : pow2 52 <= x / pow2 k).
  { apply Qle_shift_div_l; [exact Pk|].
    rewrite <- pow2_add. replace (52 + k)%Z with (ilog2 x) by lia. exact Xlo. }
  assert (H52 : pow2 52 * pow2 (- 52) == 1) by (rewrite <- pow2_add; reflexivity).
  pose proof (pow2_pos (- 52)) as P52.
  set (z := x / pow2 k) in *. set (r := inject_Z (round_half_even z)) in *.
  set (a := pow2 52) in *. set (b := pow2 (- 52)) in *. set (p := pow2 k) in *.
  clearbody z r a b p. clear - Hn Hd Hz H52 P52 Pk.
  assert (z * (1 - b) <= r) by nra.
  nra.
Qed.

(** *** The nearest double *)

Lemma nearest_pos x :
  0 < x -> round_pos x < pow2 1024 ->
  exists y, nearest x = Some y /\ y == round_pos x.
Proof.
  intros Hx Hr. unfold nearest.
  destruct (Qcompare_spec x 0) as [H|H|H]; [exfalso; lra | exfalso; lra |].
  destruct (Qle_bool (pow2 1024) (round_pos x)) eqn:E.
  - apply Qle_bool_iff in E. exfalso. lra.
  - eexists. split; [reflexivity | apply Qred_correct].
Qed.

Lemma is_double_pos r : 0 < r -> is_double r = true -> round_pos r == r.
Proof.
  intros Hr. unfold is_double, nearest.
  destruct (Qcompare_spec r 0) as [H|H|H]; [exfalso; lra | exfalso; lra |].
  destruct (Qle_bool (pow2 1024) (round_pos r)); [discriminate|].
  intros E. apply Qeq_bool_iff in E. rewrite Qred_correct in E. exact E.
Qed.

Lemma trunc_floor x : 0 <= x -> trunc x = Qfloor x.
Proof.
  intros Hx. destruct x as [a b]. unfold trunc, Qfloor. simpl.
  apply Z.quot_div_nonneg; [|lia].
  unfold Qle in Hx. simpl in Hx. lia.
Qed.

End Rounding.

Section Truncation.
Local Open Scope Q_scope.

Lemma round_pos_nonneg x : 0 < x -> 0 <= round_pos x.
Proof.
  intros Hx. unfold round_pos.
  pose proof (pow2_pos (quantum x)) as Pk.
  apply Qmult_le_0_compat; [|lra].
  change 0 with (inject_Z 0). rewrite <- Zle_Qle.
  apply round_half_even_ge. change (inject_Z 0) with 0.
  apply Qle_shift_div_l; [exact Pk | lra].
Qed.

Lemma round_pos_above x :
  pow2 (- 1022) <= x -> round_pos x <= x * (1 + pow2 (- 52)).
Proof.
  intros Hx.
  assert (Px : 0 < x) by (pose proof (pow2_pos (- 1022)); lra).
  destruct (ilog2_spec x Px) as [Xlo Xhi].
  assert (Hi : (- 1022 <= ilog2 x)%Z).
  { assert (- 1022 < ilog2 x + 1)%Z by (apply pow2_lt_inv; lra). lia. }
  unfold round_pos.
  assert (Hk : quantum x = (ilog2 x - 52)%Z) by (unfold quantum; lia).
  set (k := quantum x) in *.
  pose proof (pow2_pos k) as Pk.
  pose proof (round_half_even_bounds (x / pow2 k)) as [_ Hb].
  pose proof (Qfloor_le (x / pow2 k)) as Hf.
  rewrite Zle_Qle, inject_Z_plus in Hb. change (inject_Z 1) with 1 in Hb.
  pose proof (div_pow2 x k) as Hd.
  assert (Hz : pow2 52 <= x / pow2 k).
  { apply Qle_shift_div_l; [exact Pk|].
    rewrite <- pow2_add. replace (52 + k)%Z with (ilog2 x) by lia. exact Xlo. }
  assert (H52 : pow2 52 * pow2 (- 52) == 1) by (rewrite <- pow2_add; reflexivity).
  pose proof (pow2_pos (- 52)) as P52.
  set (z := x / pow2 k) in *. set (r := inject_Z (round_half_even z)) in *.
  set (f := inject_Z (Qfloor z)) in *.
  set (a := pow2 52) in *. set (b := pow2 (- 52)) in *. set (p := pow2 k) in *.
  clearbody z r f a b p. clear - Hb Hf Hd Hz H52 P52 Pk.
  assert (r <= z * (1 + b)) by nra.
  nra.
Qed.

(** [int] of a rounded positive result that stays below an exactly
    representable bound: no overflow, and the whole number is the exact
    result rounded down, up to the rounding of the double. *)
Lemma trunc_nearest x B :
  0 < x -> x <= B -> round_pos B == B -> B <= inject_Z (2 ^ 52) ->
  exists p, nearest x = Some p /\
    (0 <= trunc p)%Z /\ inject_Z (trunc p) <= B /\
    inject_Z (trunc p) * (1 - pow2 (- 52)) <= x /\
    x < inject_Z (trunc p) + 1.
Proof.
  intros Hx HxB HB HB52.
  pose proof (round_pos_mono x B Hx HxB) as Hm. rewrite HB in Hm.
  assert (H1024 : inject_Z (2 ^ 52) < pow2 1024).
  { rewrite <- pow2_Z by lia. apply pow2_lt. lia. }
  destruct (nearest_pos x Hx ltac:(lra)) as (p & Hp & Epx).
  exists p. split; [exact Hp|].
  pose proof (round_pos_nonneg x Hx) as Hnn.
  assert (Pp : 0 <= p) by lra.
  rewrite (trunc_floor p Pp).
  pose proof (Qfloor_le p) as F1. pose proof (Qlt_floor p) as F2.
  rewrite inject_Z_plus in F2. change (inject_Z 1) with 1 in F2.
  assert (Hn0 : (0 <= Qfloor p)%Z).
  { change 0%Z with (Qfloor 0). apply Qfloor_resp_le, Pp. }
  set (n := Qfloor p) in *.
  assert (Hn52 : (n <= 2 ^ 52)%Z).
  { rewrite Zle_Qle. lra. }
  split; [exact Hn0|]. split; [lra|]. split.
  - destruct (Qlt_le_dec x (pow2 (- 1022))) as [Hs|Hs].
    + assert (E : round_pos (pow2 (- 1022)) == pow2 (- 1022)).
      { apply (round_pos_exact _ 1 (- 1022)); [lia | lia |].
        change (inject_Z 1) with 1. ring. }
      pose proof (round_pos_mono x (pow2 (- 1022)) Hx ltac:(lra)) as Hm'.
      rewrite E in Hm'.
      assert (L1 : pow2 (- 1022) < 1).
      { change 1 with (pow2 0). apply pow2_lt. lia. }
      assert (Hz : (n < 1)%Z).
      { rewrite Zlt_Qlt. change (inject_Z 1) with 1. lra. }
      replace n with 0%Z by lia. change (inject_Z 0) with 0. lra.
    + pose proof (round_pos_above x Hs) as Ha.
      pose proof (pow2_pos (- 52)) as P52.
      assert (L1 : pow2 (- 52) < 1).
      { change 1 with (pow2 0). apply pow2_lt. lia. }
      assert (Hnq : 0 <= inject_Z n).
      { change 0 with (inject_Z 0). rewrite <- Zle_Qle. exact Hn0. }
      set (b := pow2 (- 52)) in *. set (N := inject_Z n) in *.
      set (rx := round_pos x) in *.
      clearbody b N rx. clear - Ha P52 L1 Hnq F1 Epx Hx.
      assert (N <= x * (1 + b)) by lra.
      nra.
  - destruct (Qlt_le_dec x (inject_Z n + 1)) as [Hlt|Hge]; [exact Hlt|].
    exfalso.
    assert (E : round_pos (inject_Z (n + 1)) == inject_Z (n + 1)).
    { apply round_pos_Z. lia. }
    assert (P1 : 0 < inject_Z n + 1).
    { assert (0 <= inject_Z n); [|lra].
      change 0 with (inject_Z 0). rewrite <- Zle_Qle. exact Hn0. }
    pose proof (round_pos_mono (inject_Z n + 1) x P1 Hge) as Hm'.
    assert (Ec : round_pos (inject_Z n + 1) == inject_Z n + 1).
    { apply Qeq_trans with (round_pos (inject_Z (n + 1))).
      - apply round_pos_comp; [exact P1|]. rewrite inject_Z_plus. reflexivity.
      - rewrite E, inject_Z_plus. reflexivity. }
    lra.
Qed.

Lemma of_int_exact n :
  (0 < n < 2 ^ 52)%Z ->
  exists x, Rounded.of_int n = Rounded.FOk x /\ x == inject_Z n.
Proof.
  intros Hn. unfold Rounded.of_int.
  assert (Pn : 0 < inject_Z n).
  { change 0 with (inject_Z 0). rewrite <- Zlt_Qlt. lia. }
  pose proof (round_pos_Z n ltac:(lia)) as E.
  assert (H1024 : inject_Z (2 ^ 52) < pow2 1024).
  { rewrite <- pow2_Z by lia. apply pow2_lt. lia. }
  assert (Hlt : inject_Z n < inject_Z (2 ^ 52)) by (rewrite <- Zlt_Qlt; lia).
  destruct (nearest_pos (inject_Z n) Pn ltac:(lra)) as (y & Hy & Ey).
  rewrite Hy. exists y. split; [reflexivity | lra].
Qed.

End Truncation.

Section Crop.
Local Open Scope Q_scope.

Lemma inject_Z_pos n : (0 < n)%Z -> 0 < inject_Z n.
Proof. intros. change 0 with (inject_Z 0). rewrite <- Zlt_Qlt. assumption. Qed.

Lemma inject_Z_below n b : (n < 2 ^ b)%Z -> inject_Z n < inject_Z (2 ^ b).
Proof. intros. rewrite <- Zlt_Qlt. assumption. Qed.

(** [w / h] on two sides of a picture. *)
Lemma true_div_sides w h :
  (0 < w < 2 ^ 51)%Z -> (0 < h < 2 ^ 51)%Z ->
  exists q, nearest (inject_Z w / inject_Z h) = Some q /\
    q == round_pos (inject_Z w / inject_Z h) /\
    pow2 (- 1022) <= inject_Z w / inject_Z h.
Proof.
  intros Hw Hh.
  pose proof (inject_Z_pos w ltac:(lia)) as PW.
  pose proof (inject_Z_pos h ltac:(lia)) as PH.
  assert (W1 : 1 <= inject_Z w).
  { change 1 with (inject_Z 1). rewrite <- Zle_Qle. lia. }
  assert (H1 : 1 <= inject_Z h).
  { change 1 with (inject_Z 1). rewrite <- Zle_Qle. lia. }
  assert (W51 : inject_Z w <= inject_Z (2 ^ 51)) by (rewrite <- Zle_Qle; lia).
  assert (H51 : inject_Z h <= inject_Z (2 ^ 51)) by (rewrite <- Zle_Qle; lia).
  assert (Hd : inject_Z w / inject_Z h * inject_Z h == inject_Z w) by (field; lra).
  assert (Pd : 0 < inject_Z w / inject_Z h).
  { apply Qlt_shift_div_l; lra. }
  assert (Hle : inject_Z w / inject_Z h <= inject_Z w).
  { apply Qle_shift_div_r; [exact PH|]. nra. }
  pose proof (round_pos_mono _ _ Pd Hle) as Hm.
  rewrite (round_pos_Z w ltac:(lia)) in Hm.
  assert (H1024 : inject_Z (2 ^ 51) < pow2 1024).
  { rewrite <- pow2_Z by lia. apply pow2_lt. lia. }
  destruct (nearest_pos _ Pd ltac:(lra)) as (q & Hq & Eq).
  exists q. split; [exact Hq|]. split; [exact Eq|].
  apply Qle_trans with (pow2 (- 51)); [apply pow2_le; lia|].
  apply Qle_shift_div_l; [exact PH|].
  assert (E : pow2 (- 51) * inject_Z (2 ^ 51) == 1).
  { rewrite <- pow2_Z by lia. rewrite <- pow2_add. reflexivity. }
  pose proof (pow2_pos (- 31)). nra.
Qed.

End Crop.

(** The rounded fractions against the primitive doubles: single
    operations at the edges of the format (the smallest and the largest
    double, results that underflow, overflow or fall on a tie), and the
    crop rectangle for several ratios. *)
Example sample_ratios :
  Q_of_float 0x1.3333333333333p-2 = Some three_tenths /\
  Q_of_float 0x1.23d70a3d70a3dp-1 = Some fifty_seven_hundredths /\
  Q_of_float (5 / 3) = Some five_thirds.
Proof. vm_compute. auto. Qed.

Example same_operations :
  forallb (fun ab => same_product ab.1 ab.2 && same_quotient ab.1 ab.2)
    [(10, 0x1.3333333333333p-2); (100, 0x1.23d70a3d70a3dp-1);
     (3, 0x1.aaaaaaaaaaaabp+0); (4000, 3000); (1, 3); (1, 10);
     (0x1p-1074, 0x1.3333333333333p-2); (7, 0x1.5p-1074);
     (0x1.8p-1070, 0x1.8p-3); (0x1p-1000, 0x1p+100);
     (0x1.23456789abcdep-1022, 0x1.fffffffffffffp-2);
     (0x1.fffffffffffffp+1023, 10);
     (0x1.fffffffffffffp+1023, 0x1.3333333333333p-2);
     (0x1.23456789abcdep+500, 0x1.fffffffffffffp+523);
     (0x1.fffffffffffffp+52, 0x1.0000000000001p+0);
     (0x1.0000000000001p+0, 0x1.8p+0)]%float = true.
Proof. vm_compute. reflexivity. Qed.

Example same_boxes_small :
  forallb (fun r => same_boxes_upto r 40)
    [0x1.3333333333333p-2; 0x1.23d70a3d70a3dp-1; 5 / 3; 1; 16 / 9;
     0x1.999999999999ap-4; 7; 0x1.0000000000001p+0; 0x1.fffffffffffffp-1]%float
  = true.
Proof. vm_compute. reflexivity. Qed.

Example same_boxes_photos :
  forallb (fun r =>
     forallb (fun wh => same_box r wh.1 wh.2)
       [(4000, 3000); (3000, 4000); (1920, 1080); (1080, 1920);
        (1000, 1000); (6000, 3600); (1, 100); (100, 1); (7680, 4320);
        (65535, 65535); (3, 65535); (65535, 2);
        (2147483647, 1); (1, 2147483647); (2147483647, 2147483647)])
    [0x1.3333333333333p-2; 0x1.23d70a3d70a3dp-1; 5 / 3; 0x1p-40;
     0x1.5p+35; 0x1.fffffffffffffp-1]%float
  = true.
Proof. vm_compute. reflexivity. Qed.

(** At the program's ratio the rounded fractions give the rectangle of
    the exact arithmetic. *)
Example same_crops_five_thirds :
  forallb (fun w => forallb (fun h => same_crop (Z.of_nat w) (Z.of_nat h))
                      (seq 1 60))
    (seq 1 60) = true.
Proof. vm_compute. reflexivity. Qed.

(** Where the doubles part from exact arithmetic: [int(10 * 0.3)] is 3
    and [int(100 * 0.57)] is 56. *)
Example int_mul_three_tenths :
  Rounded.int_mul 10 three_tenths = Rounded.FOk 3 /\
  Rounded.int_mul 100 fifty_seven_hundredths = Rounded.FOk 56.
Proof. vm_compute. auto. Qed.

(** C8. For a picture with positive sides (below [2 ^ 51]; a Pillow size
    is below [2 ^ 31]) and a target ratio that is a positive finite double,
    [crop_to_aspect_ratio] returns; the rectangle it crops lies inside
    the picture; the cropped side is the other side's ideal length
    rounded down to a whole pixel, up to the last bit of the double the
    length was computed in (the ratio is the target up to that
    rounding); and each offset is the trimmed difference halved by
    integer division, so that an odd difference leaves its extra pixel
    on the right or at the bottom. *)
Theorem crop_to_aspect_ratio_centered (im : image) (r : Q) :
  0 < width im < 2 ^ 51 -> 0 < height im < 2 ^ 51 ->
  (0 < r)%Q -> is_double r = true ->
  exists x0 y0 x1 y1 out,
    Rounded.crop_box im r = Rounded.FOk (x0, y0, x1, y1) /\
    Rounded.crop_to_aspect_ratio im r = Rounded.FOk out /\
    width out = x1 - x0 /\ height out = y1 - y0 /\
    (0 <= x0 /\ x0 <= x1 /\ x1 <= width im) /\
    (0 <= y0 /\ y0 <= y1 /\ y1 <= height im) /\
    ((height out = height im /\
      (inject_Z (width out) * (1 - pow2 (- 52)) <= inject_Z (height im) * r)%Q /\
      (inject_Z (height im) * r < inject_Z (width out) + 1)%Q) \/
     (width out = width im /\
      (inject_Z (height out) * (1 - pow2 (- 52)) <= inject_Z (width im) / r)%Q /\
      (inject_Z (width im) / r < inject_Z (height out) + 1)%Q)) /\
    x0 = Z.quot (width im - width out) 2 /\
    y0 = Z.quot (height im - height out) 2 /\
    width im - x1 = x0 + (width im - width out) `mod` 2 /\
    height im - y1 = y0 + (height im - height out) `mod` 2.
Proof.
  intros Hw Hh Hr Hdbl.
  pose proof (is_double_pos r Hr Hdbl) as Er.
  destruct (true_div_sides (width im) (height im) Hw Hh) as (q & Hq & Eq & Hnorm).
  pose proof (inject_Z_pos (width im) ltac:(lia)) as PW.
  pose proof (inject_Z_pos (height im) ltac:(lia)) as PH.
  assert (Hd : (inject_Z (width im) / inject_Z (height im) * inject_Z (height im)
                == inject_Z (width im))%Q) by (field; lra).
  assert (Pd : (0 < inject_Z (width im) / inject_Z (height im))%Q).
  { apply Qlt_shift_div_l; lra. }
  assert (W52 : (inject_Z (width im) <= inject_Z (2 ^ 52))%Q) by (rewrite <- Zle_Qle; lia).
  unfold Rounded.crop_to_aspect_ratio, Rounded.crop_box, Rounded.true_div.
  rewrite decide_False by lia. rewrite Hq. cbn [mbind Rounded.fresult_bind].
  destruct (Qlt_le_dec r q) as [Hgt|Hle].
  - (* the picture is wider than the target *)
    assert (Hlt : (inject_Z (height im) * r < inject_Z (width im))%Q).
    { destruct (Qlt_le_dec (inject_Z (height im) * r) (inject_Z (width im)))
        as [?|Hge]; [assumption|exfalso].
      assert (Hdr : (inject_Z (width im) / inject_Z (height im) <= r)%Q).
      { apply Qle_shift_div_r; [exact PH|]. lra. }
      pose proof (round_pos_mono _ _ Pd Hdr) as Hm. lra. }
    destruct (of_int_exact (height im) ltac:(lia)) as (x & Hx & Ex).
    unfold Rounded.int_mul. rewrite Hx. cbn [mbind Rounded.fresult_bind].
    assert (Exr : (x * r == inject_Z (height im) * r)%Q) by (rewrite Ex; reflexivity).
    destruct (trunc_nearest (x * r) (inject_Z (width im))) as (p & Hp & T0 & T1 & T2 & T3).
    { rewrite Exr. apply Qmult_lt_0_compat; assumption. }
    { lra. }
    { apply round_pos_Z. lia. }
    { exact W52. }
    rewrite Hp. cbn [mbind Rounded.fresult_bind].
    set (nw := trunc p) in *.
    assert (Hnw : nw <= width im) by (rewrite Zle_Qle; exact T1).
    destruct (half_floor (width im - nw) ltac:(lia)) as (Hquot & Hpos & Htrail & Hmod).
    set (x0 := (width im - nw) `div` 2) in *.
    exists x0, 0, (x0 + nw), (0 + height im).
    eexists. split; [reflexivity|]. cbn.
    rewrite !decide_False by lia. split; [reflexivity|]. cbn.
    replace (x0 + nw - x0) with nw by lia.
    replace (0 + height im - 0) with (height im) by lia.
    rewrite Z.sub_diag.
    assert (T2' : (inject_Z nw * (1 - pow2 (- 52)) <= inject_Z (height im) * r)%Q) by lra.
    assert (T3' : (inject_Z (height im) * r < inject_Z nw + 1)%Q) by lra.
    clearbody x0 nw. rewrite Zmod_0_l.
    split_and!; try first [exact Hquot | reflexivity | clear Hquot; lia].
    left. split_and!; [reflexivity | exact T2' | exact T3'].
  - (* the picture is at most as wide as the target *)
    destruct (of_int_exact (width im) ltac:(lia)) as (x & Hx & Ex).
    unfold Rounded.int_div. rewrite Hx. cbn [mbind Rounded.fresult_bind].
    assert (Hr0 : Qeq_bool r 0 = false).
    { destruct (Qeq_bool r 0) eqn:E; [|reflexivity].
      apply Qeq_bool_iff in E. exfalso. lra. }
    rewrite Hr0.
    assert (Exr : (x / r == inject_Z (width im) / r)%Q) by (rewrite Ex; reflexivity).
    assert (Hy : (inject_Z (width im) / r * r == inject_Z (width im))%Q) by (field; lra).
    assert (Py : (0 < inject_Z (width im) / r)%Q).
    { apply Qlt_shift_div_l; lra. }
    assert (Hbound : (inject_Z (width im) / r <= inject_Z (height im) + (1 # 2))%Q).
    { pose proof (round_pos_near _ Hnorm) as Hn.
      assert (H51 : (inject_Z (height im) <= 2251799813685247)%Q).
      { change 2251799813685247%Q with (inject_Z (2 ^ 51 - 1)). rewrite <- Zle_Qle. lia. }
      assert (Hb : (pow2 (- 52) == 1 # 4503599627370496)%Q) by reflexivity.
      apply Qle_shift_div_r; [exact Hr|].
      set (d := (inject_Z (width im) / inject_Z (height im))%Q) in *.
      set (b := pow2 (- 52)) in *.
      set (W := inject_Z (width im)) in *. set (H := inject_Z (height im)) in *.
      set (rd := round_pos d) in *.
      clearbody d b W H rd. clear - Hn Hle Eq Hd Pd H51 Hb PH Hr.
      assert (K : (H <= (H + (1 # 2)) * (1 - b))%Q) by (rewrite Hb; lra).
      assert (K2 : (d * (1 - b) <= r)%Q) by lra.
      assert (K3 : (d * H <= d * ((H + (1 # 2)) * (1 - b)))%Q) by nra.
      assert (K4 : (d * (1 - b) * (H + (1 # 2)) <= r * (H + (1 # 2)))%Q) by nra.
      lra. }
    destruct (trunc_nearest (x / r) (inject_Z (height im) + (1 # 2)))
      as (p & Hp & T0 & T1 & T2 & T3).
    { lra. }
    { lra. }
    { apply round_pos_half. lia. }
    { assert (inject_Z (height im) <= inject_Z (2 ^ 51))%Q by (rewrite <- Zle_Qle; lia).
      assert (inject_Z (2 ^ 51) + (1 # 2) <= inject_Z (2 ^ 52))%Q by (vm_compute; discriminate).
      lra. }
    rewrite Hp. cbn [mbind Rounded.fresult_bind].
    set (nh := trunc p) in *.
    assert (Hnh : nh <= height im).
    { assert (nh < height im + 1); [|lia].
      rewrite Zlt_Qlt, inject_Z_plus. change (inject_Z 1) with 1%Q. lra. }
    destruct (half_floor (height im - nh) ltac:(lia)) as (Hquot & Hpos & Htrail & Hmod).
    set (y0 := (height im - nh) `div` 2) in *.
    exists 0, y0, (0 + width im), (y0 + nh).
    eexists. split; [reflexivity|]. cbn.
    rewrite !decide_False by lia. split; [reflexivity|]. cbn.
    replace (y0 + nh - y0) with nh by lia.
    replace (0 + width im - 0) with (width im) by lia.
    rewrite Z.sub_diag.
    assert (T2' : (inject_Z nh * (1 - pow2 (- 52)) <= inject_Z (width im) / r)%Q) by lra.
    assert (T3' : (inject_Z (width im) / r < inject_Z nh + 1)%Q) by lra.
    clearbody y0 nh. rewrite Zmod_0_l.
    split_and!; try first [exact Hquot | reflexivity | clear Hquot; lia].
    right. split_and!; [reflexivity | exact T2' | exact T3'].
Qed.

Lemma crop_to_aspect_ratio_centered_witness :
  exists x0 y0 x1 y1 out,
    Rounded.crop_box {| width := 100; height := 10 |} three_tenths
      = Rounded.FOk (x0, y0, x1, y1) /\
    Rounded.crop_to_aspect_ratio {| width := 100; height := 10 |} three_tenths
      = Rounded.FOk out /\
    width out = x1 - x0 /\ height out = y1 - y0 /\
    (0 <= x0 /\ x0 <= x1 /\ x1 <= 100) /\
    (0 <= y0 /\ y0 <= y1 /\ y1 <= 10) /\
    ((height out = 10 /\
      (inject_Z (width out) * (1 - pow2 (- 52)) <= inject_Z 10 * three_tenths)%Q /\
      (inject_Z 10 * three_tenths < inject_Z (width out) + 1)%Q) \/
     (width out = 100 /\
      (inject_Z (height out) * (1 - pow2 (- 52)) <= inject_Z 100 / three_tenths)%Q /\
      (inject_Z 100 / three_tenths < inject_Z (height out) + 1)%Q)) /\
    x0 = Z.quot (100 - width out) 2 /\
    y0 = Z.quot (10 - height out) 2 /\
    100 - x1 = x0 + (100 - width out) `mod` 2 /\
    10 - y1 = y0 + (10 - height out) `mod` 2.
Proof.
  apply (crop_to_aspect_ratio_centered
           {| width := 100; height := 10 |} three_tenths).
  - cbn. lia.
  - cbn. lia.
  - reflexivity.
  - vm_compute. reflexivity.
Defined.

(** C9, counterexample: a square picture of 1000 pixels gets the canvas
    1666 x 1000, which is not 5:3. *)
Lemma canvas_exactly_5_3_fails :
  ~ canvas_exactly_5_3 {| width := 1000; height := 1000 |}.
Proof.
  intros (nw & nh & Hc & _ & _ & Hr).
  vm_compute in Hc. injection Hc as <- <-. lia.
Qed.

(** C9, amended. For a picture with positive sides the canvas is
    computed and covers the picture in both dimensions; one side is the
    picture's own and the other is the 5:3 length rounded down to a whole
    pixel, so the ratio is 5:3 up to that rounding. *)
Theorem canvas_size_covers (img : image) :
  0 < width img -> 0 < height img ->
  exists new_width new_height,
    canvas_size img = Ok (new_width, new_height) /\
    width img <= new_width /\ height img <= new_height /\
    ((new_width = width img /\
      5 * new_height <= 3 * new_width < 5 * (new_height + 1)) \/
     (new_height = height img /\
      3 * new_width <= 5 * new_height < 3 * (new_width + 1))).
Proof.
  intros Hw Hh. unfold canvas_size.
  rewrite decide_False by lia.
  destruct (div_gt (width img) (height img) target_aspect_ratio) eqn:Hgt.
  - apply div_gt_true in Hgt. cbn in Hgt.
    unfold int_div. cbn [num den target_aspect_ratio].
    destruct (decide (5 = 0)) as [?|_]; [lia|]. cbn [mbind result_bind].
    pose proof (quot_floor (width img * 3) 5 ltac:(lia) ltac:(lia)) as Hq.
    set (nh := Z.quot (width img * 3) 5) in *. clearbody nh.
    exists (width img), nh. split; [reflexivity|]. lia.
  - apply div_gt_false in Hgt. cbn in Hgt.
    unfold int_mul. cbn [num den target_aspect_ratio].
    pose proof (quot_floor (height img * 5) 3 ltac:(lia) ltac:(lia)) as Hq.
    set (nw := Z.quot (height img * 5) 3) in *. clearbody nw.
    exists nw, (height img). split; [reflexivity|]. lia.
Qed.

Lemma canvas_size_covers_witness :
  exists new_width new_height,
    canvas_size {| width := 1000; height := 1000 |}
      = Ok (new_width, new_height) /\
    1000 <= new_width /\ 1000 <= new_height /\
    ((new_width = 1000 /\
      5 * new_height <= 3 * new_width < 5 * (new_height + 1)) \/
     (new_height = 1000 /\
      3 * new_width <= 5 * new_height < 3 * (new_width + 1))).
Proof.
  apply (canvas_size_covers {| width := 1000; height := 1000 |}); cbn; lia.
Defined.

(** C7, the failing input: with the blurred background a picture one
    pixel wide is cropped to height [int (1 / (5 / 3)) = 0], and
    [ImageOps.contain] divides by that height. *)
Theorem composite_one_pixel_wide_raises :
  crop_to_aspect_ratio {| width := 1; height := 1 |} target_aspect_ratio
    = Ok {| width := 1; height := 0 |} /\
  composite {| width := 1; height := 1 |} true 2000 1200
    = Err ZeroDivisionError.
Proof. split; reflexivity. Qed.

Lemma resize_to_target (im : image) (w h : Z) :
  0 < w -> 0 < h -> PIL.resize im (w, h) = Ok {| width := w; height := h |}.
Proof.
  intros Hw Hh. unfold PIL.resize. destruct im as [iw ih]. cbn.
  destruct (decide ((iw, ih) = (w, h))) as [Heq|_].
  - by injection Heq as -> ->.
  - rewrite decide_False by lia. done.
Qed.

Lemma py_round_pos (p q : Z) : 0 < q -> q <= p -> 1 <= py_round p q.
Proof.
  intros Hq Hp. unfold py_round.
  assert (1 <= p `div` q) by (apply Z.div_le_lower_bound; lia).
  repeat case_decide; try lia. destruct (Z.even _); lia.
Qed.

Lemma contain_returns (im : image) (w h : Z) :
  0 < width im -> 0 < height im -> 0 < w -> 0 < h ->
  (w * height im < width im * h -> width im <= height im * w) ->
  (width im * h < w * height im -> height im <= width im * h) ->
  exists background, PIL.contain im (w, h) = Ok background.
Proof.
  intros Hiw Hih Hw Hh Hwide Htall. unfold PIL.contain.
  rewrite !(decide_False (P := _ = 0)) by lia.
  destruct (decide (width im * h = w * height im)) as [_|Hne].
  { rewrite resize_to_target by lia. eauto. }
  destruct (decide (w * height im < width im * h)) as [Hlt|Hge].
  - rewrite resize_to_target; eauto.
    pose proof (py_round_pos (height im * w) (width im)). lia.
  - rewrite resize_to_target; eauto.
    pose proof (py_round_pos (width im * h) (height im)). lia.
Qed.

(** What C7 says holds away from that input: with a plain background, or
    for a picture at least two pixels wide, the result has the target
    size. *)
Lemma composite_reaches_target (img : image) (blurred : bool) (tw th : Z) :
  0 < width img -> 0 < height img -> 0 < tw -> 0 < th ->
  blurred = false \/ 2 <= width img ->
  composite img blurred tw th = Ok {| width := tw; height := th |}.
Proof.
  intros Hw Hh Htw Hth Hmode. unfold composite, PIL.gaussian_blur, PIL.paste.
  rewrite canvas_size_cases by done.
  pose proof (quot_floor (width img * 3) 5 ltac:(lia) ltac:(lia)) as Hq35.
  pose proof (quot_floor (height img * 5) 3 ltac:(lia) ltac:(lia)) as Hq53.
  destruct blurred.
  - destruct Hmode as [?|Hw2]; [done|].
    rewrite crop_size_cases by done. unfold int_mul.
    cbn [num den target_aspect_ratio].
    destruct (div_gt (width img) (height img) target_aspect_ratio) eqn:Hgt;
      [apply div_gt_true in Hgt|apply div_gt_false in Hgt];
      cbn [num den target_aspect_ratio] in Hgt; cbn [mbind result_bind].
    + destruct (contain_returns
                  {| width := Z.quot (height img * 5) 3; height := height img |}
                  (width img) (Z.quot (width img * 3) 5))
        as [background ->]; cbn [width height]; try nia.
      cbn [mbind result_bind]. by apply resize_to_target.
    + destruct (contain_returns
                  {| width := width img; height := Z.quot (width img * 3) 5 |}
                  (Z.quot (height img * 5) 3) (height img))
        as [background ->]; cbn [width height]; try nia.
      cbn [mbind result_bind]. by apply resize_to_target.
  - destruct (div_gt (width img) (height img) target_aspect_ratio) eqn:Hgt;
      [apply div_gt_true in Hgt|apply div_gt_false in Hgt];
      cbn [num den target_aspect_ratio] in Hgt; cbn [mbind result_bind];
      unfold PIL.new; cbn [fst snd]; rewrite decide_False by nia;
      cbn [mbind result_bind]; by apply resize_to_target.
Qed.

(** * Properties of the walker *)

(** ** Loops *)

Lemma for_each_app {A S} (body : A -> S -> M S) (l1 l2 : list A) (st : S)
    (w : world) :
  for_each body (l1 ++ l2) st w =
  match for_each body l1 st w with
  | Returns st' w' => for_each body l2 st' w'
  | Raises e w' => Raises e w'
  end.
Proof.
  revert st w. induction l1 as [|x l1 IH]; intros st w; [done|].
  cbn [for_each app]. unfold bind. destruct (body x st w); [apply IH|done].
Qed.

Lemma visit_directory_flat (cfg : config) (root : string)
    (files : list string) (st : walk_state) (w : world) :
  for_each (visit_file cfg root) files st w =
  for_each (visit cfg)
    (os_path_join root <$> filter (fun file => is_image_name file = true) files)
    st w.
Proof.
  revert st w. induction files as [|file files IH]; intros st w; [done|].
  cbn [for_each]. unfold bind at 1, visit_file at 1.
  destruct (is_image_name file) eqn:Hext.
  - rewrite filter_cons_True by done. cbn [fmap list_fmap for_each].
    unfold bind. destruct (visit cfg _ st w); [apply IH|done].
  - rewrite filter_cons_False by (rewrite Hext; done). apply IH.
Qed.

(** The two nested loops visit the discovered paths in order. *)
Lemma walk_flat (cfg : config) (listing : list (string * list string))
    (st : walk_state) (w : world) :
  for_each (visit_directory cfg) listing st w =
  for_each (visit cfg) (discovered listing) st w.
Proof.
  revert st w. induction listing as [|[root files] listing IH]; intros st w;
    [done|].
  cbn [for_each]. unfold discovered. cbn [mbind list_bind fst snd].
  rewrite for_each_app. unfold bind, visit_directory at 1. cbn [fst snd].
  rewrite visit_directory_flat.
  destruct (for_each (visit cfg) _ st w); [apply IH|done].
Qed.

(** ** One picture *)

Lemma process_image_cases (input_path output_path : string) (blurred : bool)
    (tw th : Z) (w : world) :
  (exists e, process_image input_path output_path blurred tw th w = Raises e w)
  \/ (exists img out,
        fs w !! input_path = Some (Picture img) /\
        composite img blurred tw th = Ok out /\
        process_image input_path output_path blurred tw th w =
        Returns ()
          {| fs := <[output_path := Picture out]> (fs w);
             console :=
               console w ++ ["Image processed and saved as " +:+ output_path] |}).
Proof.
  unfold process_image, bind, image_open.
  destruct (fs w !! input_path) as [[img| | |]|]; eauto.
  unfold lift. destruct (composite img blurred tw th) as [out|e] eqn:Hc; eauto.
  right. by exists img, out.
Qed.

Lemma visit_recorded (cfg : config) (p : string) (st : walk_state) (w : world) :
  p ∈ processed_paths st ->
  visit cfg p st w =
  Returns
    {| processed_images := processed_images st;
       processed_paths := processed_paths st;
       image_index := image_index st;
       current_input_paths := {[p]} ∪ current_input_paths st |}
    (say ["Skipping " +:+ p +:+ " (already processed)"] w).
Proof. intros Hin. unfold visit. rewrite decide_True by done. done. Qed.

Lemma visit_new (cfg : config) (p : string) (st : walk_state) (w : world) :
  p ∉ processed_paths st ->
  visit cfg p st w =
  match process_image p (output_name cfg (image_index st))
          (blurred_background cfg) (target_width cfg) (target_height cfg) w with
  | Returns _ w' =>
      Returns
        {| processed_images :=
             processed_images st
             ++ [entry p (output_name cfg (image_index st))];
           processed_paths := {[p]} ∪ processed_paths st;
           image_index := (image_index st + 1)%nat;
           current_input_paths := {[p]} ∪ current_input_paths st |} w'
  | Raises e w' => Raises e w'
  end.
Proof.
  intros Hin. unfold visit. rewrite decide_False by done.
  unfold bind, output_name. by destruct (process_image _ _ _ _ _ w).
Qed.

(** ** The first loop *)

(** What the loop has done when it returns: it appended one entry per
    new path, numbered from the index it started with, and it saw every
    path of the list. *)
Lemma walk_returns (cfg : config) (l : list string) (st st' : walk_state)
    (w w' : world) :
  for_each (visit cfg) l st w = Returns st' w' ->
  exists news : list (string * string),
    processed_images st' =
      processed_images st ++ entries news /\
    processed_paths st' = list_to_set news.*1 ∪ processed_paths st /\
    image_index st' = (image_index st + length news)%nat /\
    news.*2 = output_name cfg <$> seq (image_index st) (length news) /\
    (forall p, p ∈ news.*1 -> p ∈ l /\ p ∉ processed_paths st) /\
    current_input_paths st' = list_to_set l ∪ current_input_paths st /\
    (forall p, p ∈ l -> p ∈ processed_paths st').
Proof.
  unfold entries. revert st w. induction l as [|p l IH]; intros st w Hrun.
  { injection Hrun as <- <-. exists []. cbn [fmap list_fmap length seq].
    rewrite app_nil_r, Nat.add_0_r.
    split_and!; [done|set_solver|done|done|set_solver|set_solver|set_solver]. }
  cbn [for_each] in Hrun. unfold bind in Hrun.
  destruct (decide (p ∈ processed_paths st)) as [Hin|Hnew].
  - rewrite visit_recorded in Hrun by done.
    destruct (IH _ _ Hrun)
      as (news & Himg & Hpaths & Hidx & Hout & Hnews & Hcur & Hseen).
    cbn [processed_images processed_paths image_index current_input_paths]
      in Himg, Hpaths, Hidx, Hout, Hnews, Hcur.
    exists news. split_and!; [done..| | |].
    + intros q Hq. destruct (Hnews q Hq). set_solver.
    + rewrite Hcur. set_solver.
    + intros q [->|Hq]%elem_of_cons; [|by apply Hseen].
      rewrite Hpaths. set_solver.
  - rewrite visit_new in Hrun by done.
    destruct (process_image _ _ _ _ _ w) as [[] w1|]; [|done].
    destruct (IH _ _ Hrun)
      as (news & Himg & Hpaths & Hidx & Hout & Hnews & Hcur & Hseen).
    cbn [processed_images processed_paths image_index current_input_paths]
      in Himg, Hpaths, Hidx, Hout, Hnews, Hcur.
    exists ((p, output_name cfg (image_index st)) :: news).
    cbn [fmap list_fmap length seq fst snd].
    split_and!.
    + by rewrite Himg, <- app_assoc.
    + rewrite Hpaths. set_solver.
    + lia.
    + f_equal. rewrite Hout.
      by replace (image_index st + 1)%nat with (S (image_index st)) by lia.
    + intros q [->|Hq]%elem_of_cons; [set_solver|].
      destruct (Hnews q Hq). set_solver.
    + rewrite Hcur. set_solver.
    + intros q [->|Hq]%elem_of_cons; [|by apply Hseen].
      rewrite Hpaths. set_solver.
Qed.

(** When every path of the list is already recorded the loop only
    prints: no file is written and no entry is added. *)
Lemma walk_all_recorded (cfg : config) (l : list string) (st : walk_state)
    (w : world) :
  (forall p, p ∈ l -> p ∈ processed_paths st) ->
  exists lines,
    for_each (visit cfg) l st w =
    Returns
      {| processed_images := processed_images st;
         processed_paths := processed_paths st;
         image_index := image_index st;
         current_input_paths := list_to_set l ∪ current_input_paths st |}
      (say lines w).
Proof.
  revert st w. induction l as [|p l IH]; intros st w Hall.
  { exists []. cbn [for_each list_to_set]. unfold ret, say.
    rewrite app_nil_r, (left_id_L ∅ (∪)). by destruct st, w. }
  cbn [for_each]. unfold bind.
  rewrite visit_recorded by (apply Hall; left).
  match goal with |- context [for_each _ l ?st1 ?w1] =>
    destruct (IH st1 w1) as [lines ->]
  end.
  { intros q Hq. cbn. apply Hall. by right. }
  exists (("Skipping " +:+ p +:+ " (already processed)") :: lines).
  cbn [processed_images processed_paths image_index current_input_paths
       list_to_set].
  unfold say. cbn [fs console]. rewrite <- app_assoc. cbn [app].
  do 2 f_equal. set_solver.
Qed.

(** ** The set of recorded paths *)

Lemma input_paths_spec (l : list json) (paths : gset string) :
  input_paths l = Ok paths ->
  (forall p, p ∈ paths <->
             exists img, img ∈ l /\ get_str img "input_path" = Ok p) /\
  (forall img, img ∈ l -> exists p, get_str img "input_path" = Ok p).
Proof.
  revert paths. induction l as [|img l IH]; intros paths Hp.
  { injection Hp as <-. split.
    - intros p. split; [set_solver|]. intros (? & []%elem_of_nil & _).
    - intros ? []%elem_of_nil. }
  cbn [input_paths] in Hp.
  destruct (get_str img "input_path") as [p0|] eqn:Hp0; [|done].
  cbn [mbind result_bind] in Hp.
  destruct (input_paths l) as [rest|]; [|done].
  cbn [mbind result_bind] in Hp. injection Hp as <-.
  destruct (IH rest eq_refl) as [IHin IHall]. split.
  - intros p. rewrite elem_of_union, elem_of_singleton, IHin. split.
    + intros [->|(i & Hi & Hg)]; [exists img|exists i];
        (split; [|done]); [left|by right].
    + intros (i & [->|Hi]%elem_of_cons & Hg); [left; congruence|].
      right. eauto.
  - intros i [->|Hi]%elem_of_cons; eauto.
Qed.

Lemma input_paths_total (l : list json) :
  (forall img, img ∈ l -> exists p, get_str img "input_path" = Ok p) ->
  exists paths, input_paths l = Ok paths.
Proof.
  induction l as [|img l IH]; intros Hall; [by exists ∅|].
  destruct (Hall img) as [p Hp]; [left|].
  destruct IH as [rest Hrest]. { intros i Hi. apply Hall. by right. }
  exists ({[p]} ∪ rest). cbn [input_paths]. by rewrite Hp, Hrest.
Qed.

(** ** The pruning loop *)

Lemma prune_step_kept (current : gset string) (img : json)
    (updated : list json) (w : world) :
  recorded_in current img = true ->
  prune_step current img updated w = Returns (updated ++ [img]) w.
Proof.
  unfold recorded_in, prune_step, bind, lift.
  destruct (get_str img "input_path") as [p|]; [|done].
  intros Hin%bool_decide_eq_true. cbn. by rewrite decide_False by auto.
Qed.

Lemma prune_step_dropped (current : gset string) (img : json)
    (updated updated' : list json) (w w' : world) :
  recorded_in current img = false ->
  prune_step current img updated w = Returns updated' w' ->
  updated' = updated /\
  exists p o,
    get_str img "input_path" = Ok p /\ p ∉ current /\
    get_str img "output_path" = Ok o /\
    fs w' = delete o (fs w).
Proof.
  unfold recorded_in, prune_step, bind, lift.
  destruct (get_str img "input_path") as [p|]; [|done].
  intros Hout%bool_decide_eq_false. cbn. rewrite decide_True by done.
  destruct (get_str img "output_path") as [o|]; [|done]. cbn.
  unfold os_path_exists, os_remove, print, ret.
  destruct (fs w !! o) as [f|] eqn:Hfile.
  - rewrite bool_decide_eq_true_2 by eauto. cbn. rewrite Hfile. cbn.
    intros [= <- <-]. split; [done|]. exists p, o. done.
  - rewrite bool_decide_eq_false_2 by (intros [? ?]; done). cbn.
    intros [= <- <-]. split; [done|]. exists p, o.
    by rewrite delete_id.
Qed.

(** What the pruning loop has done when it returns: the entries whose
    input is among the current paths are kept in order, the output of
    every other entry is absent afterwards, and no file appears. *)
Lemma prune_returns (current : gset string) (l updated updated' : list json)
    (w w' : world) :
  for_each (prune_step current) l updated w = Returns updated' w' ->
  updated' = updated ++ filter (fun img => recorded_in current img = true) l /\
  (forall img, img ∈ l -> recorded_in current img = false ->
     exists p o,
       get_str img "input_path" = Ok p /\ p ∉ current /\
       get_str img "output_path" = Ok o /\ fs w' !! o = None) /\
  (forall path, fs w !! path = None -> fs w' !! path = None).
Proof.
  revert updated w. induction l as [|img l IH]; intros updated w Hrun.
  { injection Hrun as <- <-. rewrite app_nil_r.
    split_and!; [done| |done]. intros ? []%elem_of_nil. }
  cbn [for_each] in Hrun. unfold bind in Hrun.
  destruct (recorded_in current img) eqn:Hrec.
  - rewrite prune_step_kept in Hrun by done.
    destruct (IH _ _ Hrun) as (-> & Hgone & Hmono).
    rewrite filter_cons_True by done. split_and!.
    + by rewrite <- app_assoc.
    + intros i [->|Hi]%elem_of_cons Hi'; [congruence|by apply Hgone].
    + done.
  - destruct (prune_step current img updated w) as [updated1 w1|] eqn:Hstep;
      [|done].
    destruct (prune_step_dropped _ _ _ _ _ _ Hrec Hstep)
      as (-> & p & o & Hp & Hnot & Ho & Hfs).
    destruct (IH _ _ Hrun) as (-> & Hgone & Hmono).
    rewrite filter_cons_False by (rewrite Hrec; done). split_and!.
    + done.
    + intros i [->|Hi]%elem_of_cons Hi'; [|by apply Hgone].
      exists p, o. split_and!; [done..|].
      apply Hmono. rewrite Hfs. apply lookup_delete_eq.
    + intros path Hpath. apply Hmono. rewrite Hfs.
      rewrite lookup_delete_None. by right.
Qed.

Lemma prune_keeps_all (current : gset string) (l updated : list json)
    (w : world) :
  (forall img, img ∈ l -> recorded_in current img = true) ->
  for_each (prune_step current) l updated w = Returns (updated ++ l) w.
Proof.
  revert updated. induction l as [|img l IH]; intros updated Hall.
  { by rewrite app_nil_r. }
  cbn [for_each]. unfold bind.
  rewrite prune_step_kept by (apply Hall; left).
  rewrite IH by (intros i Hi; apply Hall; by right).
  by rewrite <- app_assoc.
Qed.

(** ** Loading and the whole run *)

Lemma load_returns (json_file : string) (w : world) :
  load_processed_images json_file w =
  match fs w !! json_file with
  | None => Returns [] w
  | Some (JsonText (JArr items)) => Returns items w
  | Some (JsonText _) => Returns [] w
  | Some _ => Returns [] (say [json_warning json_file] w)
  end.
Proof.
  unfold load_processed_images, bind, os_path_exists, try_except, json_load.
  destruct (fs w !! json_file) as [f|] eqn:Hf.
  - rewrite bool_decide_eq_true_2 by eauto. rewrite Hf.
    destruct f as [im|j| |]; try done. by destruct j.
  - rewrite bool_decide_eq_false_2 by (intros [? ?]; done). done.
Qed.

Lemma entry_input_path (p o : string) : get_str (entry p o) "input_path" = Ok p.
Proof. reflexivity. Qed.

Lemma recorded_in_true (current : gset string) (img : json) :
  recorded_in current img = true <->
  exists p, get_str img "input_path" = Ok p /\ p ∈ current.
Proof.
  unfold recorded_in. destruct (get_str img "input_path") as [p|e].
  - rewrite bool_decide_eq_true. split; [eauto|]. by intros (? & [= <-] & ?).
  - split; [done|]. by intros (? & ? & _).
Qed.

(** What a run that returns has done. *)
Lemma sync_ledger_returns (cfg : config) (listing : list (string * list string))
    (loaded : list json) (w w1 : world) :
  sync_ledger cfg listing loaded w = Returns () w1 ->
  exists (news : list (string * string)) (saved : list json),
    saved = filter (fun img => recorded_in (seen listing) img = true)
              (loaded ++ entries news) /\
    fs w1 !! json_file cfg = Some (JsonText (JArr saved)) /\
    (forall img, img ∈ loaded -> exists p, get_str img "input_path" = Ok p) /\
    news.*2 = output_name cfg <$> seq (start_index loaded) (length news) /\
    (forall p, p ∈ news.*1 ->
       p ∈ discovered listing /\
       forall img, img ∈ loaded -> get_str img "input_path" <> Ok p) /\
    (forall p, p ∈ discovered listing ->
       exists img, img ∈ loaded ++ entries news /\
                   get_str img "input_path" = Ok p) /\
    (forall img, img ∈ loaded -> recorded_in (seen listing) img = false ->
       exists p o,
         get_str img "input_path" = Ok p /\ p ∉ seen listing /\
         get_str img "output_path" = Ok o /\
         (o <> json_file cfg -> fs w1 !! o = None)).
Proof.
  unfold sync_ledger, bind, lift. intros Hrun.
  destruct (input_paths loaded) as [paths|] eqn:Hpaths; [|done].
  cbn [ret] in Hrun. rewrite walk_flat in Hrun.
  destruct (for_each (visit cfg) _ _ w) as [st wl|] eqn:Hwalk; [|done].
  destruct (for_each (prune_step _) _ _ wl) as [updated wp|] eqn:Hprune;
    [|done].
  unfold save_processed_images, write_file in Hrun. injection Hrun as <-.
  destruct (walk_returns _ _ _ _ _ _ Hwalk)
    as (news & Himg & Hpp & _ & Hout & Hnews & Hcur & Hseen).
  cbn [processed_images processed_paths image_index current_input_paths]
    in Himg, Hpp, Hout, Hnews, Hcur.
  assert (current_input_paths st = seen listing) as Hcur'.
  { rewrite Hcur. unfold seen. set_solver. }
  rewrite Hcur', Himg in Hprune.
  destruct (prune_returns _ _ _ _ _ _ Hprune) as (Hupd & Hgone & _).
  destruct (input_paths_spec _ _ Hpaths) as [Hin Hall].
  exists news, updated. cbn [fs]. split_and!.
  - by rewrite Hupd.
  - apply lookup_insert_eq.
  - done.
  - done.
  - intros p Hp. destruct (Hnews p Hp) as [Hd Hnot]. split; [done|].
    intros img Himg' Hget. apply Hnot, Hin. eauto.
  - intros p Hp. specialize (Hseen p Hp). rewrite Hpp in Hseen.
    apply elem_of_union in Hseen as [Hn|Hl].
    + apply elem_of_list_to_set, list_elem_of_fmap in Hn as ([p' o] & -> & Hpo).
      exists (entry p' o). split; [|done].
      apply elem_of_app. right. unfold entries.
      apply list_elem_of_fmap. by exists (p', o).
    + apply Hin in Hl as (img & Himg' & Hget). exists img.
      split; [|done]. apply elem_of_app. by left.
  - intros img Himg' Hrec.
    destruct (Hgone img) as (p & o & Hp & Hnot & Ho & Habsent);
      [apply elem_of_app; by left|done|].
    exists p, o. split_and!; [done..|].
    intros Hne. by rewrite lookup_insert_ne.
Qed.

(** * The claims about the ledger and the walk *)

Lemma run_after_load (cfg : config) (listing : list (string * list string))
    (w : world) :
  resize_images_in_folder cfg listing w =
  sync_ledger cfg listing (ledger_of cfg w) (after_load cfg w).
Proof.
  unfold resize_images_in_folder, bind, ledger_of, after_load.
  rewrite load_returns.
  destruct (fs w !! json_file cfg) as [[im|j| |]|]; try done. by destruct j.
Qed.

Lemma filter_all {A} (P : A -> Prop) `{!forall x, Decision (P x)} (l : list A) :
  (forall x, x ∈ l -> P x) -> filter P l = l.
Proof.
  induction l as [|x l IH]; intros Hall; [done|].
  rewrite filter_cons_True by (apply Hall; left).
  f_equal. apply IH. intros y Hy. apply Hall. by right.
Qed.

(** C10. A ledger file that holds valid JSON other than an array loads
    as the empty list: the call returns, the world (the console with it)
    is as before, so no warning is printed, and the run goes on as from an
    empty ledger. *)
Theorem non_array_ledger_loads_empty_silently (cfg : config)
    (listing : list (string * list string)) (w : world) (j : json) :
  fs w !! json_file cfg = Some (JsonText j) ->
  (forall items, j <> JArr items) ->
  load_processed_images (json_file cfg) w = Returns [] w /\
  resize_images_in_folder cfg listing w = sync_ledger cfg listing [] w.
Proof.
  intros Hfile Hshape.
  assert (load_processed_images (json_file cfg) w = Returns [] w) as Hload.
  { rewrite load_returns, Hfile. destruct j; try done. by destruct (Hshape items). }
  split; [done|]. unfold resize_images_in_folder, bind. by rewrite Hload.
Qed.

Lemma non_array_ledger_loads_empty_silently_witness :
  let w := {| fs := <["out/processed_images.json" :=
                       JsonText (JObj [("version", JNum 1)])]> (fs Sample.fresh);
              console := [] |} in
  load_processed_images (json_file Sample.cfg) w = Returns [] w /\
  resize_images_in_folder Sample.cfg Sample.abc w =
  sync_ledger Sample.cfg Sample.abc [] w.
Proof.
  intros w.
  apply (non_array_ledger_loads_empty_silently Sample.cfg Sample.abc w
           (JObj [("version", JNum 1)])).
  - reflexivity.
  - intros items. discriminate.
Defined.

(** C6, counterexample: when the ledger file is absent the empty ledger
    is returned without a warning. *)
Lemma loads_empty_with_warning_fails :
  ~ loads_empty_with_warning "out/processed_images.json" Sample.fresh.
Proof.
  intros Hclaim. specialize (Hclaim I).
  rewrite load_returns in Hclaim. vm_compute in Hclaim. discriminate.
Qed.

(** C6, amended. When the ledger file is absent, empty or not JSON,
    loading returns the empty ledger and never raises; the warning is
    printed when the file is there (empty or malformed) and nothing is
    printed when it is absent.  The run goes on as from an empty ledger:
    if it returns, the ledger it leaves holds exactly one new entry per
    newly converted path, with outputs numbered from 0, and every
    discovered path has one. *)
Theorem unreadable_ledger_starts_fresh (cfg : config)
    (listing : list (string * list string)) (w : world) :
  unreadable (fs w !! json_file cfg) ->
  let warned :=
    match fs w !! json_file cfg with
    | None => w
    | Some _ => say [json_warning (json_file cfg)] w
    end in
  load_processed_images (json_file cfg) w = Returns [] warned /\
  resize_images_in_folder cfg listing w = sync_ledger cfg listing [] warned /\
  forall w1, resize_images_in_folder cfg listing w = Returns () w1 ->
    exists news,
      ledger_of cfg w1 = entries news /\
      news.*2 = output_name cfg <$> seq 0 (length news) /\
      forall p, p ∈ discovered listing -> p ∈ news.*1.
Proof.
  intros Hbad warned.
  assert (load_processed_images (json_file cfg) w = Returns [] warned) as Hload.
  { rewrite load_returns. subst warned.
    by destruct (fs w !! json_file cfg) as [[ | | | ]|]. }
  assert (resize_images_in_folder cfg listing w
          = sync_ledger cfg listing [] warned) as Hrun.
  { unfold resize_images_in_folder, bind. by rewrite Hload. }
  split_and!; [done..|].
  intros w1 Hret. rewrite Hrun in Hret.
  destruct (sync_ledger_returns _ _ _ _ _ Hret)
    as (news & saved & Hsaved & Hfile & _ & Hout & Hnews & Hall & _).
  exists news. cbn [app] in Hsaved, Hall.
  rewrite filter_all in Hsaved.
  - subst saved. unfold ledger_of. rewrite Hfile. split_and!; [done..|].
    intros p Hp. destruct (Hall p Hp) as (img & Himg & Hget).
    apply list_elem_of_fmap in Himg as ([p' o] & -> & Hin).
    rewrite entry_input_path in Hget. injection Hget as <-.
    apply list_elem_of_fmap. by exists (p', o).
  - intros img ([p o] & -> & Hin)%list_elem_of_fmap.
    apply recorded_in_true. exists p. split; [done|].
    apply elem_of_list_to_set, Hnews, list_elem_of_fmap. by exists (p, o).
Qed.

Lemma unreadable_ledger_starts_fresh_witness :
  let w := {| fs := <["out/processed_images.json" := EmptyFile]>
                      (fs Sample.fresh);
              console := [] |} in
  let warned := say [json_warning (json_file Sample.cfg)] w in
  load_processed_images (json_file Sample.cfg) w = Returns [] warned /\
  resize_images_in_folder Sample.cfg Sample.abc w =
    sync_ledger Sample.cfg Sample.abc [] warned /\
  forall w1, resize_images_in_folder Sample.cfg Sample.abc w = Returns () w1 ->
    exists news,
      ledger_of Sample.cfg w1 = entries news /\
      news.*2 = output_name Sample.cfg <$> seq 0 (length news) /\
      forall p, p ∈ discovered Sample.abc -> p ∈ news.*1.
Proof.
  intros w.
  apply (unreadable_ledger_starts_fresh Sample.cfg Sample.abc w).
  exact I.
Defined.

(** C1. After a run that returned, a second run over the same listing
    returns as well; every discovered path is in the ledger it loads and
    every entry of that ledger names a discovered path, so every path is
    skipped and nothing is pruned; the files, the ledger file among them,
    are the same after the second run as before it. *)
Theorem second_run_changes_nothing (cfg : config)
    (listing : list (string * list string)) (w w1 : world) :
  resize_images_in_folder cfg listing w = Returns () w1 ->
  (forall p, p ∈ discovered listing ->
     exists img, img ∈ ledger_of cfg w1 /\ get_str img "input_path" = Ok p) /\
  (forall img, img ∈ ledger_of cfg w1 ->
     recorded_in (seen listing) img = true) /\
  exists w2,
    resize_images_in_folder cfg listing w1 = Returns () w2 /\
    fs w2 = fs w1 /\
    ledger_of cfg w2 = ledger_of cfg w1.
Proof.
  intros Hrun. rewrite run_after_load in Hrun.
  destruct (sync_ledger_returns _ _ _ _ _ Hrun)
    as (news & saved & Hsaved & Hfile & _ & _ & _ & Hall & _).
  assert (ledger_of cfg w1 = saved) as Hledger.
  { unfold ledger_of. by rewrite Hfile. }
  assert (forall img, img ∈ saved -> recorded_in (seen listing) img = true)
    as Hkept.
  { intros img. rewrite Hsaved. by intros [? _]%list_elem_of_filter. }
  assert (forall p, p ∈ discovered listing ->
            exists img, img ∈ saved /\ get_str img "input_path" = Ok p)
    as Hfound.
  { intros p Hp. destruct (Hall p Hp) as (img & Himg & Hget).
    exists img. split; [|done]. rewrite Hsaved.
    apply list_elem_of_filter. split; [|done].
    apply recorded_in_true. exists p. split; [done|].
    by apply elem_of_list_to_set. }
  rewrite Hledger. split_and!; [done..|].
  rewrite run_after_load, Hledger.
  assert (after_load cfg w1 = w1) as ->.
  { unfold after_load. by rewrite Hfile. }
  destruct (input_paths_total saved) as [paths Hpaths].
  { intros img Himg. apply Hkept, recorded_in_true in Himg as (p & Hp & _).
    eauto. }
  destruct (input_paths_spec _ _ Hpaths) as [Hin _].
  destruct (walk_all_recorded cfg (discovered listing)
              (initial_state saved paths) w1) as [lines Hwalk].
  { intros p Hp. apply Hin. by apply Hfound. }
  exists (say lines w1). split_and!; [|done..].
  unfold sync_ledger, bind, lift. rewrite Hpaths. cbn [ret].
  rewrite walk_flat. fold (initial_state saved paths). rewrite Hwalk.
  cbn [processed_images current_input_paths initial_state].
  rewrite prune_keeps_all.
  - unfold save_processed_images, write_file, say. cbn [fs console app].
    by rewrite insert_id.
  - intros img Himg. rewrite (right_id_L ∅ (∪)). by apply Hkept.
Qed.

Lemma second_run_changes_nothing_witness :
  (forall p, p ∈ discovered Sample.abc ->
     exists img, img ∈ ledger_of Sample.cfg Sample.after_abc /\
                 get_str img "input_path" = Ok p) /\
  (forall img, img ∈ ledger_of Sample.cfg Sample.after_abc ->
     recorded_in (seen Sample.abc) img = true) /\
  exists w2,
    resize_images_in_folder Sample.cfg Sample.abc Sample.after_abc
      = Returns () w2 /\
    fs w2 = fs Sample.after_abc /\
    ledger_of Sample.cfg w2 = ledger_of Sample.cfg Sample.after_abc.
Proof.
  apply (second_run_changes_nothing Sample.cfg Sample.abc Sample.fresh).
  vm_compute. reflexivity.
Defined.

(** C5. In a run that returns, every entry of the loaded ledger whose
    input path is not among the discovered paths has its output file
    removed (the path holds no file afterwards; the only file the run
    writes after pruning is the ledger itself) and the ledger that is
    saved holds no entry for that input path. *)
Theorem stale_entries_are_pruned (cfg : config)
    (listing : list (string * list string)) (w w1 : world) (img : json)
    (p : string) :
  resize_images_in_folder cfg listing w = Returns () w1 ->
  img ∈ ledger_of cfg w ->
  get_str img "input_path" = Ok p ->
  p ∉ discovered listing ->
  (exists o, get_str img "output_path" = Ok o /\
             (o <> json_file cfg -> fs w1 !! o = None)) /\
  (forall img', img' ∈ ledger_of cfg w1 -> get_str img' "input_path" <> Ok p).
Proof.
  intros Hrun Himg Hget Hgone. rewrite run_after_load in Hrun.
  destruct (sync_ledger_returns _ _ _ _ _ Hrun)
    as (news & saved & Hsaved & Hfile & _ & _ & _ & _ & Hpruned).
  assert (p ∉ seen listing) as Hnot.
  { unfold seen. by rewrite elem_of_list_to_set. }
  split.
  - destruct (Hpruned img Himg) as (p' & o & Hp' & _ & Ho & Habsent).
    { unfold recorded_in. rewrite Hget. by apply bool_decide_eq_false. }
    eauto.
  - intros img'. unfold ledger_of at 1. rewrite Hfile, Hsaved.
    intros [Hrec _]%list_elem_of_filter Hget'.
    apply recorded_in_true in Hrec as (p' & Hp' & Hin). congruence.
Qed.

Lemma stale_entries_are_pruned_witness :
  ledger_of Sample.cfg Sample.after_only_a = [entry "in/a.jpg" "out/0.jpg"] /\
  is_Some (fs Sample.after_only_a !! "out/0.jpg") /\
  (exists o, get_str (entry "in/a.jpg" "out/0.jpg") "output_path" = Ok o /\
             (o <> json_file Sample.cfg ->
              fs Sample.after_a_removed !! o = None)) /\
  (forall img', img' ∈ ledger_of Sample.cfg Sample.after_a_removed ->
                get_str img' "input_path" <> Ok "in/a.jpg").
Proof.
  assert (ledger_of Sample.cfg Sample.after_only_a
          = [entry "in/a.jpg" "out/0.jpg"]) as Hledger
    by (vm_compute; reflexivity).
  split; [exact Hledger|]. split; [vm_compute; eauto|].
  apply (stale_entries_are_pruned Sample.cfg Sample.nothing
           Sample.after_only_a Sample.after_a_removed).
  - vm_compute. reflexivity.
  - rewrite Hledger. left.
  - reflexivity.
  - vm_compute (discovered _). intros Hin. inversion Hin.
Defined.

(** C2, counterexample: the ledger left by a first run over three files
    has three entries; a run that then converts two more files names
    them [4.jpg] and [5.jpg], not [3.jpg] and [4.jpg]. *)
Lemma numbering_starts_at_count_fails :
  ~ numbering_starts_at_count Sample.cfg Sample.abcde Sample.after_abc.
Proof.
  intros Hclaim.
  destruct (Hclaim (world_of (resize_images_in_folder Sample.cfg Sample.abcde
                                Sample.after_abc)))
    as (news & Hledger & Hout); [vm_compute; reflexivity|].
  vm_compute in Hledger.
  destruct news as [|[p1 o1] [|[p2 o2] [|? ?]]]; try discriminate Hledger.
  injection Hledger as <- <- <- <-. vm_compute in Hout. discriminate Hout.
Qed.

Lemma start_index_cases (loaded : list json) :
  start_index loaded =
  if decide (loaded = []) then 0%nat else (length loaded + 1)%nat.
Proof. unfold start_index. by destruct loaded. Qed.

(** C2, amended. A run that returns appends one entry per newly
    converted path, and their outputs are numbered consecutively from the
    start index: 0 when the loaded ledger is empty, its number of entries
    plus one otherwise.  So three new files on an empty ledger give
    [0.jpg], [1.jpg], [2.jpg], and two new files on a ledger of three
    entries give [4.jpg] and [5.jpg]. *)
Theorem numbering_starts_after_count (cfg : config)
    (listing : list (string * list string)) (w w1 : world) :
  resize_images_in_folder cfg listing w = Returns () w1 ->
  exists news,
    ledger_of cfg w1 =
      filter (fun img => recorded_in (seen listing) img = true)
        (ledger_of cfg w ++ entries news) /\
    (forall p, p ∈ news.*1 ->
       p ∈ discovered listing /\
       forall img, img ∈ ledger_of cfg w -> get_str img "input_path" <> Ok p) /\
    news.*2 =
      output_name cfg <$> seq (start_index (ledger_of cfg w)) (length news) /\
    start_index (ledger_of cfg w) =
      (if decide (ledger_of cfg w = []) then 0
       else length (ledger_of cfg w) + 1)%nat /\
    (ledger_of cfg w = [] -> length news = 3%nat ->
     news.*2 = [output_name cfg 0; output_name cfg 1; output_name cfg 2]) /\
    (length (ledger_of cfg w) = 3%nat -> length news = 2%nat ->
     news.*2 = [output_name cfg 4; output_name cfg 5]).
Proof.
  intros Hrun. rewrite run_after_load in Hrun.
  destruct (sync_ledger_returns _ _ _ _ _ Hrun)
    as (news & saved & Hsaved & Hfile & _ & Hout & Hnews & _ & _).
  exists news. split_and!.
  - unfold ledger_of at 1. by rewrite Hfile.
  - done.
  - done.
  - apply start_index_cases.
  - intros Hempty Hlen. by rewrite Hout, Hempty, Hlen.
  - intros Hthree Hlen. rewrite Hout, Hlen. unfold start_index.
    by rewrite Hthree.
Qed.

Lemma numbering_starts_after_count_witness :
  exists news,
    ledger_of Sample.cfg
      (world_of (resize_images_in_folder Sample.cfg Sample.abcde
                   Sample.after_abc)) =
      filter (fun img => recorded_in (seen Sample.abcde) img = true)
        (ledger_of Sample.cfg Sample.after_abc ++ entries news) /\
    (forall p, p ∈ news.*1 ->
       p ∈ discovered Sample.abcde /\
       forall img, img ∈ ledger_of Sample.cfg Sample.after_abc ->
                   get_str img "input_path" <> Ok p) /\
    news.*2 =
      output_name Sample.cfg
        <$> seq (start_index (ledger_of Sample.cfg Sample.after_abc))
              (length news) /\
    start_index (ledger_of Sample.cfg Sample.after_abc) =
      (if decide (ledger_of Sample.cfg Sample.after_abc = []) then 0
       else length (ledger_of Sample.cfg Sample.after_abc) + 1)%nat /\
    (ledger_of Sample.cfg Sample.after_abc = [] -> length news = 3%nat ->
     news.*2 = [output_name Sample.cfg 0; output_name Sample.cfg 1;
                output_name Sample.cfg 2]) /\
    (length (ledger_of Sample.cfg Sample.after_abc) = 3%nat ->
     length news = 2%nat ->
     news.*2 = [output_name Sample.cfg 4; output_name Sample.cfg 5]).
Proof.
  apply (numbering_starts_after_count Sample.cfg Sample.abcde Sample.after_abc).
  vm_compute. reflexivity.
Defined.

Example numbering_on_the_sample :
  ledger_of Sample.cfg Sample.after_abc =
    entries [("in/a.jpg", "out/0.jpg"); ("in/b.jpg", "out/1.jpg");
             ("in/c.jpg", "out/2.jpg")] /\
  ledger_of Sample.cfg
    (world_of (resize_images_in_folder Sample.cfg Sample.abcde
                 Sample.after_abc)) =
    entries [("in/a.jpg", "out/0.jpg"); ("in/b.jpg", "out/1.jpg");
             ("in/c.jpg", "out/2.jpg"); ("in/d.jpg", "out/4.jpg");
             ("in/e.jpg", "out/5.jpg")].
Proof. split; vm_compute; reflexivity. Qed.

(** C3, counterexample: with [broken.jpg] between two good pictures the
    run raises; it does not return, so nothing is recorded. *)
Lemma failures_are_isolated_fails :
  ~ failures_are_isolated Sample.cfg Sample.broken_between Sample.fresh.
Proof.
  intros (w1 & Hrun & _). vm_compute in Hrun. discriminate Hrun.
Qed.

Example run_over_broken_file :
  exists w1,
    resize_images_in_folder Sample.cfg Sample.broken_between Sample.fresh
      = Raises UnidentifiedImageError w1 /\
    fs w1 !! "out/0.jpg"
      = Some (Picture {| width := 2000; height := 1200 |}) /\
    fs w1 !! "out/1.jpg" = None /\
    fs w1 !! json_file Sample.cfg = None.
Proof. eexists. split; [vm_compute; reflexivity|]. by vm_compute. Qed.

Lemma process_image_raises (input_path output_path : string) (blurred : bool)
    (tw th : Z) (w w' : world) (e : exn) :
  process_image input_path output_path blurred tw th w = Raises e w' -> w' = w.
Proof.
  intros Hraise.
  destruct (process_image_cases input_path output_path blurred tw th w)
    as [[e' He]|(img & out & _ & _ & Hret)]; congruence.
Qed.

(** C3, amended. A discovered path that is not yet recorded and whose
    conversion raises aborts the run at that file: the exception leaves
    [resize_images_in_folder], and the world is the one the walk had
    reached just before that file, so no later file is converted, nothing
    is pruned and the ledger is not saved. *)
Theorem failing_file_aborts_the_run (cfg : config)
    (listing : list (string * list string)) (w w1 w2 : world)
    (paths : gset string) (pre post : list string) (p : string)
    (st : walk_state) (e : exn) :
  input_paths (ledger_of cfg w) = Ok paths ->
  discovered listing = pre ++ p :: post ->
  for_each (visit cfg) pre (initial_state (ledger_of cfg w) paths)
    (after_load cfg w) = Returns st w1 ->
  p ∉ processed_paths st ->
  process_image p (output_name cfg (image_index st)) (blurred_background cfg)
    (target_width cfg) (target_height cfg) w1 = Raises e w2 ->
  w2 = w1 /\ resize_images_in_folder cfg listing w = Raises e w1.
Proof.
  intros Hpaths Hsplit Hpre Hnew Hraise.
  pose proof (process_image_raises _ _ _ _ _ _ _ _ Hraise) as ->.
  split; [done|].
  rewrite run_after_load. unfold sync_ledger, bind, lift.
  rewrite Hpaths. cbn [ret]. rewrite walk_flat, Hsplit, for_each_app.
  fold (initial_state (ledger_of cfg w) paths). rewrite Hpre.
  cbn [for_each]. unfold bind. rewrite visit_new by done. by rewrite Hraise.
Qed.

Lemma failing_file_aborts_the_run_witness :
  let reached :=
    {| fs := <["out/0.jpg" := Picture {| width := 2000; height := 1200 |}]>
               (fs Sample.fresh);
       console := ["Image processed and saved as out/0.jpg"] |} in
  reached = reached /\
  resize_images_in_folder Sample.cfg Sample.broken_between Sample.fresh
    = Raises UnidentifiedImageError reached.
Proof.
  intros reached.
  apply (failing_file_aborts_the_run Sample.cfg Sample.broken_between
           Sample.fresh reached reached ∅ ["in/a.jpg"] ["in/b.jpg"]
           "in/broken.jpg"
           {| processed_images := [entry "in/a.jpg" "out/0.jpg"];
              processed_paths := {["in/a.jpg"]} ∪ ∅;
              image_index := 1;
              current_input_paths := {["in/a.jpg"]} ∪ ∅ |}
           UnidentifiedImageError).
  - reflexivity.
  - reflexivity.
  - vm_compute. reflexivity.
  - cbn [processed_paths]. intros Hin. by vm_compute in Hin.
  - vm_compute. reflexivity.
Defined.

(** C4, the failing input.  Three runs: the first converts [a], [b], [c]
    to [0.jpg], [1.jpg], [2.jpg]; before the second [a] and [b] are
    removed, so their entries are pruned and the ledger keeps the single
    entry of [c]; before the third [d] is added, and it is numbered
    [len + 1 = 2]: [d] is written to [2.jpg], the output of [c], and the
    ledger ends with two inputs on one output. *)
Theorem pruned_ledger_reuses_a_number :
  resize_images_in_folder Sample.cfg Sample.abc Sample.fresh
    = Returns () Sample.after_abc /\
  ledger_of Sample.cfg Sample.after_abc =
    [entry "in/a.jpg" "out/0.jpg"; entry "in/b.jpg" "out/1.jpg";
     entry "in/c.jpg" "out/2.jpg"] /\
  resize_images_in_folder Sample.cfg Sample.only_c Sample.after_abc
    = Returns () Sample.after_only_c /\
  ledger_of Sample.cfg Sample.after_only_c = [entry "in/c.jpg" "out/2.jpg"] /\
  resize_images_in_folder Sample.cfg Sample.c_and_d Sample.after_only_c
    = Returns () Sample.after_c_and_d /\
  ledger_of Sample.cfg Sample.after_c_and_d =
    [entry "in/c.jpg" "out/2.jpg"; entry "in/d.jpg" "out/2.jpg"].
Proof. split_and!; vm_compute; reflexivity. Qed.

(** The particular case named with C5, for any folder that holds the
    single picture [A]: the first run records [A] with the output
    [0.jpg]; once [A] is gone from the folder, a run that returns leaves
    no file at [0.jpg] and no entry for [A]. *)
Lemma removed_input_scenario (cfg : config) (root file : string)
    (listing : list (string * list string)) (w w1 w2 : world) :
  let A := os_path_join root file in
  is_image_name file = true ->
  ledger_of cfg w = [] ->
  output_name cfg 0 <> json_file cfg ->
  resize_images_in_folder cfg [(root, [file])] w = Returns () w1 ->
  A ∉ discovered listing ->
  resize_images_in_folder cfg listing w1 = Returns () w2 ->
  ledger_of cfg w1 = [entry A (output_name cfg 0)] /\
  is_Some (fs w1 !! output_name cfg 0) /\
  fs w2 !! output_name cfg 0 = None /\
  (forall img, img ∈ ledger_of cfg w2 -> get_str img "input_path" <> Ok A).
Proof.
  intros A Hext Hempty Hname Hfirst Hgone Hsecond.
  assert (ledger_of cfg w1 = [entry A (output_name cfg 0)]
          /\ is_Some (fs w1 !! output_name cfg 0)) as [Hledger Hfile].
  { rewrite run_after_load, Hempty in Hfirst.
    unfold sync_ledger, bind, lift in Hfirst. cbn [input_paths ret] in Hfirst.
    cbn [for_each] in Hfirst. unfold bind, visit_directory in Hfirst.
    cbn [fst snd for_each] in Hfirst. unfold bind, visit_file in Hfirst.
    rewrite Hext in Hfirst. fold A in Hfirst.
    rewrite visit_new in Hfirst by set_solver.
    cbn [processed_images processed_paths image_index current_input_paths]
      in Hfirst.
    change (start_index []) with 0%nat in Hfirst.
    destruct (process_image_cases A (output_name cfg 0)
                (blurred_background cfg) (target_width cfg)
                (target_height cfg) (after_load cfg w))
      as [[e He]|(img & out & _ & _ & Hret)];
      rewrite ?He, ?Hret in Hfirst; [done|].
    cbn [ret processed_images current_input_paths app for_each] in Hfirst.
    unfold bind in Hfirst. rewrite prune_step_kept in Hfirst.
    - unfold save_processed_images, write_file in Hfirst.
      injection Hfirst as <-. unfold ledger_of. cbn [fs app].
      rewrite lookup_insert_eq. split; [done|].
      rewrite lookup_insert_ne by done. rewrite lookup_insert_eq. eauto.
    - apply recorded_in_true. exists A. split; [done|]. set_solver. }
  split_and!; [done..| |].
  - rewrite run_after_load, Hledger in Hsecond.
    destruct (sync_ledger_returns _ _ _ _ _ Hsecond)
      as (_ & _ & _ & _ & _ & _ & _ & _ & Hpruned).
    destruct (Hpruned (entry A (output_name cfg 0)))
      as (p & o & _ & _ & [= <-] & Habsent); [left| |by apply Habsent].
    unfold recorded_in. rewrite entry_input_path.
    apply bool_decide_eq_false. unfold seen. by rewrite elem_of_list_to_set.
  - rewrite run_after_load in Hsecond.
    destruct (sync_ledger_returns _ _ _ _ _ Hsecond)
      as (news & saved & Hsaved & Hsavedfile & _).
    intros img. unfold ledger_of at 1. rewrite Hsavedfile, Hsaved.
    intros [Hrec _]%list_elem_of_filter Hget.
    apply recorded_in_true in Hrec as (p & Hp & Hin).
    apply Hgone. unfold seen in Hin. apply elem_of_list_to_set in Hin.
    congruence.
Qed.

(** * Further properties *)

(** ** The compositor *)

Lemma resize_size (im out : image) (size : Z * Z) :
  PIL.resize im size = Ok out -> (width out, height out) = size.
Proof.
  unfold PIL.resize. destruct size as [w h].
  destruct (decide ((width im, height im) = (w, h))) as [Heq|_].
  { by intros [= <-]. }
  case_decide; [done|]. by intros [= <-].
Qed.

(** X3. Whenever [process_image]'s transformation produces an image at
    all, for any picture, mode and target, the image has exactly the
    target width and height. *)
Theorem composite_result_has_target_size (img out : image) (blurred : bool)
    (tw th : Z) :
  composite img blurred tw th = Ok out ->
  width out = tw /\ height out = th.
Proof.
  unfold composite. intros Hc.
  destruct (canvas_size img) as [[nw nh]|]; [|done].
  cbn [mbind result_bind] in Hc.
  match type of Hc with
  | (?bg ≫= _) = _ => destruct bg as [background|]; [|done]
  end.
  cbn [mbind result_bind] in Hc. apply resize_size in Hc. by injection Hc.
Qed.

Lemma composite_result_has_target_size_witness :
  width {| width := 2000; height := 1200 |} = 2000 /\
  height {| width := 2000; height := 1200 |} = 1200.
Proof.
  apply (composite_result_has_target_size
           {| width := 3000; height := 4000 |} _ true 2000 1200).
  reflexivity.
Defined.

(** X4. [process_image] on a path that holds a picture with positive
    sides, with positive targets, and with a plain background or a
    picture at least two pixels wide: it returns, the output path holds a
    picture of exactly the target size, every other path is as before,
    and one line is printed. *)
Theorem process_image_succeeds (input_path output_path : string) (img : image)
    (blurred : bool) (tw th : Z) (w : world) :
  fs w !! input_path = Some (Picture img) ->
  0 < width img -> 0 < height img -> 0 < tw -> 0 < th ->
  blurred = false \/ 2 <= width img ->
  process_image input_path output_path blurred tw th w =
  Returns ()
    {| fs := <[output_path := Picture {| width := tw; height := th |}]> (fs w);
       console :=
         console w ++ ["Image processed and saved as " +:+ output_path] |}.
Proof.
  intros Hfile Hw Hh Htw Hth Hmode.
  unfold process_image, bind, image_open. rewrite Hfile.
  by rewrite composite_reaches_target.
Qed.

Lemma process_image_succeeds_witness :
  process_image "in/a.jpg" "out/0.jpg" true 2000 1200 Sample.fresh =
  Returns ()
    {| fs := <["out/0.jpg" := Picture {| width := 2000; height := 1200 |}]>
               (fs Sample.fresh);
       console := console Sample.fresh
                  ++ ["Image processed and saved as " +:+ "out/0.jpg"] |}.
Proof.
  apply (process_image_succeeds "in/a.jpg" "out/0.jpg"
           {| width := 4000; height := 3000 |} true 2000 1200 Sample.fresh);
    [reflexivity|cbn; lia..].
Defined.

(** X6. The picture is pasted inside the canvas: both offsets are at
    least zero, the picture ends within the canvas, the margin after the
    picture is the margin before it or one pixel more, and the offset is
    zero along the side the canvas took from the picture. *)
Theorem paste_position_centered (img : image) (new_width new_height : Z) :
  0 < width img -> 0 < height img ->
  canvas_size img = Ok (new_width, new_height) ->
  let '(x, y) := paste_position img (new_width, new_height) in
  (0 <= x /\ x + width img <= new_width) /\
  (0 <= y /\ y + height img <= new_height) /\
  (0 <= new_width - width img - x - x <= 1) /\
  (0 <= new_height - height img - y - y <= 1) /\
  (x = 0 \/ y = 0).
Proof.
  intros Hw Hh. rewrite canvas_size_cases by done.
  pose proof (quot_floor (width img * 3) 5 ltac:(lia) ltac:(lia)) as Hq35.
  pose proof (quot_floor (height img * 5) 3 ltac:(lia) ltac:(lia)) as Hq53.
  unfold paste_position.
  destruct (div_gt (width img) (height img) target_aspect_ratio) eqn:Hgt;
    [pose proof (proj1 (div_gt_true _ _ _) Hgt) as Hcmp
    |pose proof (proj1 (div_gt_false _ _ _) Hgt) as Hcmp];
    cbn [num den target_aspect_ratio] in Hcmp; intros [= <- <-].
  - destruct (half_floor (Z.quot (width img * 3) 5 - height img) ltac:(nia))
      as (_ & Hpos & Htrail & Hmod).
    rewrite Z.sub_diag, Zdiv_0_l. lia.
  - destruct (half_floor (Z.quot (height img * 5) 3 - width img) ltac:(nia))
      as (_ & Hpos & Htrail & Hmod).
    rewrite Z.sub_diag, Zdiv_0_l. lia.
Qed.

Lemma paste_position_centered_witness :
  let '(x, y) := paste_position {| width := 1000; height := 1000 |} (1666, 1000) in
  (0 <= x /\ x + 1000 <= 1666) /\
  (0 <= y /\ y + 1000 <= 1000) /\
  (0 <= 1666 - 1000 - x - x <= 1) /\
  (0 <= 1000 - 1000 - y - y <= 1) /\
  (x = 0 \/ y = 0).
Proof.
  apply (paste_position_centered {| width := 1000; height := 1000 |} 1666 1000);
    [cbn; lia..|reflexivity].
Defined.

(** X7. A picture whose sides are exactly 5:3 is left whole by the crop
    to 5:3, gets a canvas of its own size, and is pasted at the origin:
    nothing is trimmed and nothing is padded. *)
Theorem exact_ratio_is_kept (img : image) :
  0 < width img -> 0 < height img ->
  3 * width img = 5 * height img ->
  crop_box img target_aspect_ratio = Ok (0, 0, width img, height img) /\
  crop_to_aspect_ratio img target_aspect_ratio = Ok img /\
  canvas_size img = Ok (width img, height img) /\
  paste_position img (width img, height img) = (0, 0).
Proof.
  intros Hw Hh Hratio.
  assert (div_gt (width img) (height img) target_aspect_ratio = false) as Hgt.
  { apply div_gt_false. cbn. lia. }
  assert (Z.quot (width img * 3) 5 = height img) as Hq35.
  { pose proof (quot_floor (width img * 3) 5 ltac:(lia) ltac:(lia)). lia. }
  assert (Z.quot (height img * 5) 3 = width img) as Hq53.
  { pose proof (quot_floor (height img * 5) 3 ltac:(lia) ltac:(lia)). lia. }
  split_and!.
  - unfold crop_box, int_div. rewrite !(decide_False (P := _ = 0)) by (cbn; lia).
    rewrite Hgt. cbn [num den target_aspect_ratio mbind result_bind].
    rewrite Hq35, Z.sub_diag, Zdiv_0_l. do 2 f_equal; lia.
  - rewrite crop_size_cases, Hgt by done. cbn [num den target_aspect_ratio].
    rewrite Hq35. by destruct img.
  - rewrite canvas_size_cases, Hgt by done. by rewrite Hq53.
  - unfold paste_position. by rewrite !Z.sub_diag, Zdiv_0_l.
Qed.

Lemma exact_ratio_is_kept_witness :
  crop_box {| width := 2000; height := 1200 |} target_aspect_ratio
    = Ok (0, 0, 2000, 1200) /\
  crop_to_aspect_ratio {| width := 2000; height := 1200 |} target_aspect_ratio
    = Ok {| width := 2000; height := 1200 |} /\
  canvas_size {| width := 2000; height := 1200 |} = Ok (2000, 1200) /\
  paste_position {| width := 2000; height := 1200 |} (2000, 1200) = (0, 0).
Proof.
  apply (exact_ratio_is_kept {| width := 2000; height := 1200 |}); cbn; lia.
Defined.

(** ** Output names *)

Lemma pretty_N_char_digit (x : N) : is_digit (pretty_N_char x).
Proof.
  unfold is_digit, pretty_N_char.
  repeat case_match; vm_compute; lia.
Qed.

Lemma pretty_N_go_head (x : N) (c : ascii) (s : string) :
  is_digit c ->
  exists c' s', pretty_N_go x (String c s) = String c' s' /\ is_digit c'.
Proof.
  revert c s. induction (N.lt_wf_0 x) as [x _ IH]. intros c s Hc.
  destruct (decide (x = 0)%N) as [->|Hx].
  { rewrite pretty_N_go_0. eauto. }
  rewrite pretty_N_go_step by lia.
  apply IH; [apply N.div_lt; lia|apply pretty_N_char_digit].
Qed.

Lemma pretty_nat_head (n : nat) :
  exists c s, pretty n = String c s /\ is_digit c.
Proof.
  unfold pretty, pretty_nat, pretty, pretty_N.
  case_decide as Hn.
  { exists "0"%char, "". split; [done|]. unfold is_digit. vm_compute. lia. }
  rewrite pretty_N_go_step by lia.
  destruct (decide (N.of_nat n `div` 10 = 0)%N) as [->|Hd].
  { rewrite pretty_N_go_0. eauto using pretty_N_char_digit. }
  apply pretty_N_go_head, pretty_N_char_digit.
Qed.

Lemma string_app_cons (x : ascii) (a b : string) :
  String x a +:+ b = String x (a +:+ b).
Proof. reflexivity. Qed.

Lemma string_app_assoc (a b c : string) : (a +:+ b) +:+ c = a +:+ b +:+ c.
Proof.
  induction a as [|x a IH]; [done|]. by rewrite !string_app_cons, IH.
Qed.

Lemma string_app_length (a b : string) :
  String.length (a +:+ b) = (String.length a + String.length b)%nat.
Proof.
  induction a as [|x a IH]; [done|]. rewrite string_app_cons. cbn.
  by rewrite IH.
Qed.

Lemma output_name_join (cfg : config) (i : nat) :
  output_name cfg i = join_prefix (output_folder cfg) +:+ numbered_name i.
Proof.
  unfold output_name, os_path_join, join_prefix, numbered_name, startswith.
  destruct (pretty_nat_head i) as (c & s & -> & Hc).
  assert (String.prefix "/" (String c s +:+ ".jpg") = false) as ->.
  { change (String.prefix "/" (String c s +:+ ".jpg"))
      with (if ascii_dec "/" c then String.prefix "" (s +:+ ".jpg") else false).
    destruct (ascii_dec "/" c) as [<-|_]; [|done].
    unfold is_digit in Hc. vm_compute in Hc. lia. }
  destruct (bool_decide _ || endswith _ _); [done|].
  by rewrite string_app_assoc.
Qed.

Lemma append_inj_r (s1 s2 t : string) : s1 +:+ t = s2 +:+ t -> s1 = s2.
Proof.
  revert s2. induction s1 as [|c s1 IH]; intros [|d s2] Heq.
  - done.
  - apply (f_equal String.length) in Heq.
    rewrite !string_app_length in Heq. cbn in Heq. lia.
  - apply (f_equal String.length) in Heq.
    rewrite !string_app_length in Heq. cbn in Heq. lia.
  - rewrite !string_app_cons in Heq. injection Heq as -> Heq.
    f_equal. by apply IH.
Qed.

(** Different indices give different output paths. *)
Lemma output_name_inj (cfg : config) (i j : nat) :
  output_name cfg i = output_name cfg j -> i = j.
Proof.
  rewrite !output_name_join. intros Heq%(inj (String.append _)).
  unfold numbered_name in Heq. apply append_inj_r in Heq.
  by apply (inj pretty) in Heq.
Qed.

(** ** The loops, with the files *)

Lemma process_image_returns (input_path output_path : string) (blurred : bool)
    (tw th : Z) (w w' : world) :
  process_image input_path output_path blurred tw th w = Returns () w' ->
  w' = {| fs := <[output_path := Picture {| width := tw; height := th |}]> (fs w);
          console :=
            console w ++ ["Image processed and saved as " +:+ output_path] |}.
Proof.
  destruct (process_image_cases input_path output_path blurred tw th w)
    as [[e ->]|(img & out & _ & Hc & ->)]; [done|].
  intros [= <-]. unfold composite in Hc.
  destruct (canvas_size img) as [[nw nh]|]; [|done].
  cbn [mbind result_bind] in Hc.
  match type of Hc with
  | (?bg ≫= _) = _ => destruct bg as [background|]; [|done]
  end.
  cbn [mbind result_bind] in Hc. apply resize_size in Hc.
  injection Hc as <- <-. by destruct out.
Qed.

(** Whatever the loop does, it only writes numbered outputs, from the
    index it starts with. *)
Lemma walk_frame (cfg : config) (l : list string) (st : walk_state)
    (w : world) (q : string) :
  (forall i, (image_index st <= i)%nat -> q <> output_name cfg i) ->
  fs (world_of (for_each (visit cfg) l st w)) !! q = fs w !! q.
Proof.
  revert st w. induction l as [|p l IH]; intros st w Hq; [done|].
  cbn [for_each]. unfold bind.
  destruct (decide (p ∈ processed_paths st)) as [Hin|Hnew].
  - rewrite visit_recorded by done. by rewrite IH.
  - rewrite visit_new by done.
    destruct (process_image _ _ _ _ _ w) as [[] w1|e w1] eqn:Hp.
    + apply process_image_returns in Hp as ->.
      rewrite IH; cbn [image_index fs].
      * apply lookup_insert_ne. intros Heq. by apply (Hq (image_index st)).
      * intros i Hi. apply Hq. lia.
    + by apply process_image_raises in Hp as ->.
Qed.

(** The loop, when it returns: the entries it appended, the indices it
    used, and the files it left. *)
Lemma walk_full (cfg : config) (l : list string) (st st' : walk_state)
    (w w' : world) :
  for_each (visit cfg) l st w = Returns st' w' ->
  exists news : list (string * nat),
    processed_images st' = processed_images st ++ numbered_entries cfg news /\
    news.*2 = seq (image_index st) (length news) /\
    NoDup news.*1 /\
    (forall p, p ∈ news.*1 <-> p ∈ l /\ p ∉ processed_paths st) /\
    current_input_paths st' = list_to_set l ∪ current_input_paths st /\
    (forall i, i ∈ news.*2 ->
       fs w' !! output_name cfg i = Some (target_picture cfg)) /\
    (forall q, (forall i, i ∈ news.*2 -> q <> output_name cfg i) ->
       fs w' !! q = fs w !! q).
Proof.
  unfold numbered_entries.
  revert st w. induction l as [|p l IH]; intros st w Hrun.
  { injection Hrun as <- <-. exists []. cbn [fmap list_fmap length seq].
    rewrite app_nil_r.
    split_and!; [done|done|constructor| |set_solver| |done].
    - intros p. split; [by intros ?%elem_of_nil|by intros [?%elem_of_nil _]].
    - by intros i ?%elem_of_nil. }
  cbn [for_each] in Hrun. unfold bind in Hrun.
  destruct (decide (p ∈ processed_paths st)) as [Hin|Hnew].
  - rewrite visit_recorded in Hrun by done.
    destruct (IH _ _ Hrun)
      as (news & Himg & Hidx & Hnodup & Hnews & Hcur & Hout & Hframe).
    cbn [processed_images processed_paths image_index current_input_paths
         say fs] in Himg, Hidx, Hnews, Hcur, Hout, Hframe.
    exists news. split_and!; [done..| | |done|done].
    + intros q. rewrite Hnews, elem_of_cons. split; [naive_solver|].
      intros [[->|?] ?]; [done|eauto].
    + rewrite Hcur. set_solver.
  - rewrite visit_new in Hrun by done.
    destruct (process_image _ _ _ _ _ w) as [[] w1|] eqn:Hp; [|done].
    apply process_image_returns in Hp as ->.
    destruct (IH _ _ Hrun)
      as (news & Himg & Hidx & Hnodup & Hnews & Hcur & Hout & Hframe).
    cbn [processed_images processed_paths image_index current_input_paths fs]
      in Himg, Hidx, Hnews, Hcur, Hout, Hframe.
    exists ((p, image_index st) :: news).
    cbn [fmap list_fmap length seq fst snd].
    assert (forall i, i ∈ news.*2 -> (image_index st < i)%nat) as Hlater.
    { intros i. rewrite Hidx, elem_of_seq. lia. }
    split_and!.
    + by rewrite Himg, <- app_assoc.
    + f_equal. rewrite Hidx.
      by replace (image_index st + 1)%nat with (S (image_index st)) by lia.
    + constructor; [|done]. rewrite Hnews. set_solver.
    + intros q. rewrite elem_of_cons, Hnews, elem_of_cons.
      split.
      * intros [->|[? ?]]; [by eauto|]. split; [by right|set_solver].
      * intros [[->|?] ?]; [by left|].
        destruct (decide (q = p)) as [->|?]; [by left|]. right.
        split; [done|set_solver].
    + rewrite Hcur. set_solver.
    + intros i [->|Hi]%elem_of_cons; [|by apply Hout].
      rewrite Hframe.
      * apply lookup_insert_eq.
      * intros i Hi Heq%output_name_inj. specialize (Hlater i Hi). lia.
    + intros q Hq. rewrite Hframe.
      * apply lookup_insert_ne. intros Heq. apply (Hq (image_index st)); [left|done].
      * intros i Hi. apply Hq. by right.
Qed.

Lemma prune_step_frame (current : gset string) (img : json)
    (updated : list json) (w : world) (q : string) :
  (recorded_in current img = false -> get_str img "output_path" <> Ok q) ->
  fs (world_of (prune_step current img updated w)) !! q = fs w !! q.
Proof.
  intros Hq. destruct (recorded_in current img) eqn:Hrec.
  { by rewrite prune_step_kept. }
  specialize (Hq eq_refl). revert Hrec.
  unfold recorded_in, prune_step, bind, lift.
  destruct (get_str img "input_path") as [p|]; [|done].
  intros Hout%bool_decide_eq_false. cbn. rewrite decide_True by done.
  destruct (get_str img "output_path") as [o|]; [|done]. cbn.
  unfold os_path_exists, os_remove, print, ret.
  destruct (fs w !! o) as [f|] eqn:Hfile.
  - rewrite bool_decide_eq_true_2 by eauto. cbn. rewrite Hfile. cbn.
    apply lookup_delete_ne. congruence.
  - rewrite bool_decide_eq_false_2 by (intros [? ?]; done). done.
Qed.

(** Whatever the pruning loop does, it only removes outputs of entries
    it drops. *)
Lemma prune_frame (current : gset string) (l updated : list json) (w : world)
    (q : string) :
  (forall img, img ∈ l -> recorded_in current img = false ->
               get_str img "output_path" <> Ok q) ->
  fs (world_of (for_each (prune_step current) l updated w)) !! q = fs w !! q.
Proof.
  revert updated w. induction l as [|img l IH]; intros updated w Hq; [done|].
  cbn [for_each]. unfold bind.
  pose proof (prune_step_frame current img updated w q) as Hstep.
  destruct (prune_step current img updated w) as [updated1 w1|e w1].
  - rewrite IH.
    + apply Hstep. apply Hq. left.
    + intros i Hi. apply Hq. by right.
  - apply Hstep. apply Hq. left.
Qed.

(** The pruning loop returns when every entry it drops has its two
    fields. *)
Lemma prune_total (current : gset string) (l updated : list json) (w : world) :
  (forall img, img ∈ l -> recorded_in current img = true \/ well_formed img) ->
  exists updated' w',
    for_each (prune_step current) l updated w = Returns updated' w'.
Proof.
  revert updated w. induction l as [|img l IH]; intros updated w Hall.
  { by exists updated, w. }
  cbn [for_each]. unfold bind.
  assert (exists updated1 w1,
            prune_step current img updated w = Returns updated1 w1)
    as (updated1 & w1 & ->).
  { destruct (recorded_in current img) eqn:Hrec.
    { rewrite prune_step_kept by done. eauto. }
    destruct (Hall img) as [?|(p & o & Hp & Ho)]; [left|congruence|].
    revert Hrec. unfold recorded_in, prune_step, bind, lift.
    rewrite Hp, Ho. intros Hout%bool_decide_eq_false. cbn.
    rewrite decide_True by done. cbn.
    unfold os_path_exists, os_remove, print, ret.
    destruct (fs w !! o) as [f|] eqn:Hfile.
    - rewrite bool_decide_eq_true_2 by eauto. cbn. rewrite Hfile. cbn. eauto.
    - rewrite bool_decide_eq_false_2 by (intros [? ?]; done). eauto. }
  apply IH. intros i Hi. apply Hall. by right.
Qed.

(** The first loop returns when every new path holds a picture that can
    be converted and no visited path is the name of an output. *)
Lemma walk_total (cfg : config) (l : list string) (st : walk_state)
    (w : world) :
  0 < target_width cfg -> 0 < target_height cfg ->
  (forall p, p ∈ l -> p ∈ processed_paths st \/ convertible cfg w p) ->
  (forall p i, p ∈ l -> p <> output_name cfg i) ->
  exists st' w', for_each (visit cfg) l st w = Returns st' w'.
Proof.
  intros Htw Hth. revert st w.
  induction l as [|p l IH]; intros st w Hall Hnames.
  { by exists st, w. }
  cbn [for_each]. unfold bind.
  destruct (decide (p ∈ processed_paths st)) as [Hin|Hnew].
  - rewrite visit_recorded by done. apply IH.
    + intros q Hq. destruct (Hall q) as [?|Hc]; [by right|by left|].
      right. exact Hc.
    + intros q i Hq. apply Hnames. by right.
  - rewrite visit_new by done.
    destruct (Hall p) as [?|(img & Hfile & Hw & Hh & Hmode)]; [left|done|].
    unfold process_image, bind, image_open.
    rewrite Hfile, composite_reaches_target by done. cbn [lift ret].
    unfold write_file, print. cbn [fs console].
    apply IH.
    + intros q Hq. destruct (Hall q) as [?|(img' & Hfile' & Hrest)];
        [by right|left; set_solver|].
      right. exists img'. split; [|done]. cbn [fs].
      rewrite lookup_insert_ne; [done|]. intros Heq.
      by apply (Hnames q (image_index st)); [right|].
    + intros q i Hq. apply Hnames. by right.
Qed.

(** ** The whole run, with the files *)

Lemma entry_output_path (p o : string) :
  get_str (entry p o) "output_path" = Ok o.
Proof. reflexivity. Qed.

Lemma numbered_entry_fields (cfg : config) (news : list (string * nat))
    (img : json) :
  img ∈ numbered_entries cfg news ->
  exists p i, (p, i) ∈ news /\ img = entry p (output_name cfg i).
Proof.
  unfold numbered_entries. intros ([p i] & -> & Hin)%list_elem_of_fmap.
  by exists p, i.
Qed.

Lemma sync_ledger_full (cfg : config) (listing : list (string * list string))
    (loaded : list json) (w w1 : world) :
  sync_ledger cfg listing loaded w = Returns () w1 ->
  exists (paths : gset string) (news : list (string * nat)),
    input_paths loaded = Ok paths /\
    fs w1 !! json_file cfg =
      Some (JsonText (JArr (filter (fun img => recorded_in (seen listing) img = true)
                              (loaded ++ numbered_entries cfg news)))) /\
    news.*2 = seq (start_index loaded) (length news) /\
    NoDup news.*1 /\
    (forall p, p ∈ news.*1 <-> p ∈ discovered listing /\ p ∉ paths) /\
    (forall i, i ∈ news.*2 ->
       output_name cfg i <> json_file cfg ->
       (forall img, img ∈ loaded -> recorded_in (seen listing) img = false ->
                    get_str img "output_path" <> Ok (output_name cfg i)) ->
       fs w1 !! output_name cfg i = Some (target_picture cfg)) /\
    (forall q, q <> json_file cfg ->
       (forall i, i ∈ news.*2 -> q <> output_name cfg i) ->
       (forall img, img ∈ loaded -> recorded_in (seen listing) img = false ->
                    get_str img "output_path" <> Ok q) ->
       fs w1 !! q = fs w !! q).
Proof.
  unfold sync_ledger, bind, lift. intros Hrun.
  destruct (input_paths loaded) as [paths|] eqn:Hpaths; [|done].
  cbn [ret] in Hrun. rewrite walk_flat in Hrun.
  destruct (for_each (visit cfg) _ _ w) as [st wl|] eqn:Hwalk; [|done].
  destruct (for_each (prune_step _) _ _ wl) as [updated wp|] eqn:Hprune;
    [|done].
  unfold save_processed_images, write_file in Hrun. injection Hrun as <-.
  destruct (walk_full _ _ _ _ _ _ Hwalk)
    as (news & Himg & Hidx & Hnodup & Hnews & Hcur & Hout & Hframe).
  cbn [processed_images processed_paths image_index current_input_paths]
    in Himg, Hidx, Hnews, Hcur.
  assert (current_input_paths st = seen listing) as Hcur'.
  { rewrite Hcur. unfold seen. set_solver. }
  rewrite Hcur', Himg in Hprune.
  destruct (prune_returns _ _ _ _ _ _ Hprune) as (Hupd & _ & _).
  assert (forall q,
            (forall img, img ∈ loaded -> recorded_in (seen listing) img = false ->
                         get_str img "output_path" <> Ok q) ->
            fs wp !! q = fs wl !! q) as Hpruned.
  { intros q Hq.
    pose proof (prune_frame (seen listing)
                  (loaded ++ numbered_entries cfg news) [] wl q) as Hf.
    rewrite Hprune in Hf. apply Hf.
    intros img [?|Hnew]%elem_of_app Hrec; [by apply Hq|].
    apply numbered_entry_fields in Hnew as (p & i & Hin & ->).
    exfalso. revert Hrec. unfold recorded_in. rewrite entry_input_path.
    rewrite bool_decide_eq_false. intros Hnot. apply Hnot.
    apply elem_of_list_to_set.
    apply (Hnews p). apply list_elem_of_fmap. by exists (p, i). }
  exists paths, news. cbn [fs]. split_and!; [done| |done|done|done| |].
  - rewrite lookup_insert_eq. by rewrite Hupd.
  - intros i Hi Hne Hstale. rewrite lookup_insert_ne by done.
    rewrite Hpruned by done. by apply Hout.
  - intros q Hne Hq Hstale. rewrite lookup_insert_ne by done.
    rewrite Hpruned by done. by apply Hframe.
Qed.

(** Every path the run does not name keeps its file, whether the run
    returns or raises; the ledger file is only written by a run that
    returns. *)
Lemma sync_ledger_frame (cfg : config) (listing : list (string * list string))
    (loaded : list json) (w : world) (q : string) :
  (forall i, q <> output_name cfg i) ->
  (forall img, img ∈ loaded -> get_str img "output_path" <> Ok q) ->
  match sync_ledger cfg listing loaded w with
  | Returns _ w1 => q <> json_file cfg -> fs w1 !! q = fs w !! q
  | Raises _ w1 => fs w1 !! q = fs w !! q
  end.
Proof.
  intros Hq Hloaded. unfold sync_ledger, bind, lift.
  destruct (input_paths loaded) as [paths|] eqn:Hpaths; [|done].
  cbn [ret]. rewrite walk_flat.
  pose proof (walk_frame cfg (discovered listing)
                (initial_state loaded paths) w q (fun i _ => Hq i)) as Hwalk.
  fold (initial_state loaded paths).
  destruct (for_each (visit cfg) _ _ w) as [st wl|e wl] eqn:Hrun; [|done].
  cbn [world_of] in Hwalk.
  destruct (walk_full _ _ _ _ _ _ Hrun) as (news & Himg & _).
  cbn [processed_images initial_state] in Himg.
  pose proof (prune_frame (current_input_paths st) (processed_images st) []
                wl q) as Hprune.
  destruct (for_each (prune_step _) _ _ wl) as [updated wp|e wp];
    cbn [world_of] in Hprune.
  - unfold save_processed_images, write_file. intros Hne. cbn [fs].
    rewrite lookup_insert_ne by done. rewrite Hprune; [done|].
    intros img Hin _. rewrite Himg in Hin.
    apply elem_of_app in Hin as [?|Hnew]; [by apply Hloaded|].
    apply numbered_entry_fields in Hnew as (p & i & _ & ->).
    rewrite entry_output_path. intros [= Heq]. by apply (Hq i).
  - rewrite Hprune; [done|].
    intros img Hin _. rewrite Himg in Hin.
    apply elem_of_app in Hin as [?|Hnew]; [by apply Hloaded|].
    apply numbered_entry_fields in Hnew as (p & i & _ & ->).
    rewrite entry_output_path. intros [= Heq]. by apply (Hq i).
Qed.

(** ** Properties of a run *)

Lemma fs_after_load (cfg : config) (w : world) : fs (after_load cfg w) = fs w.
Proof.
  unfold after_load. by destruct (fs w !! json_file cfg) as [[ | | | ]|].
Qed.

Lemma discovered_only_images (listing : list (string * list string)) :
  discovered (only_images listing) = discovered listing.
Proof.
  unfold discovered, only_images.
  induction listing as [|[root files] listing IH]; [done|].
  cbn [fmap list_fmap mbind list_bind fst snd]. f_equal; [|exact IH].
  f_equal. apply filter_all. by intros file [? _]%list_elem_of_filter.
Qed.

(** X8. Names that do not end in [.jpg], [.jpeg] or [.png] (in any
    case) play no part: the run over a listing is the run over the
    listing with those names taken out, file for file and line for
    line. *)
Theorem other_files_are_ignored (cfg : config)
    (listing : list (string * list string)) (w : world) :
  resize_images_in_folder cfg (only_images listing) w =
  resize_images_in_folder cfg listing w.
Proof.
  rewrite !run_after_load. unfold sync_ledger, bind.
  destruct (lift (input_paths (ledger_of cfg w)) (after_load cfg w))
    as [paths wl|]; [|done].
  by rewrite !walk_flat, discovered_only_images.
Qed.

Lemma paths_of_spec (l : list json) (p : string) :
  p ∈ paths_of l <-> exists img, img ∈ l /\ get_str img "input_path" = Ok p.
Proof.
  unfold paths_of. rewrite list_elem_of_omap. split.
  - intros (img & Hin & Hp). exists img. split; [done|].
    destruct (get_str img "input_path"); congruence.
  - intros (img & Hin & Hp). exists img. by rewrite Hp.
Qed.

Lemma paths_of_numbered (cfg : config) (news : list (string * nat)) :
  paths_of (numbered_entries cfg news) = news.*1.
Proof.
  unfold paths_of, numbered_entries.
  induction news as [|[p i] news IH]; [done|]. cbn. by rewrite IH.
Qed.

Lemma outputs_of_numbered (cfg : config) (news : list (string * nat)) :
  outputs_of (numbered_entries cfg news) = output_name cfg <$> news.*2.
Proof.
  unfold outputs_of, numbered_entries.
  induction news as [|[p i] news IH]; [done|]. cbn. by rewrite IH.
Qed.

Lemma paths_of_filter (P : json -> Prop) `{!forall x, Decision (P x)}
    (l : list json) :
  paths_of (filter P l) `sublist_of` paths_of l.
Proof.
  unfold paths_of. induction l as [|img l IH]; [done|].
  destruct (decide (P img)).
  - rewrite filter_cons_True by done. cbn.
    destruct (get_str img "input_path"); [by constructor|done].
  - rewrite filter_cons_False by done. cbn.
    destruct (get_str img "input_path"); [by constructor|done].
Qed.

(** X9. The run keeps the input paths of the ledger unique: if no two
    entries of the ledger it loads name the same input, no two entries of
    the ledger it saves do. *)
Theorem input_paths_stay_unique (cfg : config)
    (listing : list (string * list string)) (w w1 : world) :
  resize_images_in_folder cfg listing w = Returns () w1 ->
  NoDup (paths_of (ledger_of cfg w)) ->
  NoDup (paths_of (ledger_of cfg w1)).
Proof.
  intros Hrun Hunique. rewrite run_after_load in Hrun.
  destruct (sync_ledger_full _ _ _ _ _ Hrun)
    as (paths & news & Hpaths & Hfile & _ & Hnodup & Hnews & _).
  unfold ledger_of at 1. rewrite Hfile.
  eapply sublist_NoDup; [|apply paths_of_filter].
  unfold paths_of. rewrite omap_app. fold (paths_of (ledger_of cfg w)).
  fold (paths_of (numbered_entries cfg news)). rewrite paths_of_numbered.
  apply NoDup_app. split_and!; [done| |done].
  intros p Hold Hnew. apply Hnews in Hnew as [_ Hfresh]. apply Hfresh.
  destruct (input_paths_spec _ _ Hpaths) as [Hin _].
  apply Hin. by apply paths_of_spec.
Qed.

Lemma input_paths_stay_unique_witness :
  NoDup (paths_of (ledger_of Sample.cfg
                     (world_of (resize_images_in_folder Sample.cfg Sample.abcde
                                  Sample.after_abc)))).
Proof.
  apply (input_paths_stay_unique Sample.cfg Sample.abcde Sample.after_abc).
  - vm_compute. reflexivity.
  - vm_compute. repeat (constructor; [set_solver|]). constructor.
Defined.

(** X10. A run leaves alone every path that is not the ledger file,
    not a numbered name of the output folder and not an output path
    recorded in the ledger it loads: such a path holds after the run
    what it held before, whether the run returns or raises.  Input
    pictures are never changed or deleted. *)
Theorem run_touches_only_its_files (cfg : config)
    (listing : list (string * list string)) (w : world) (q : string) :
  q <> json_file cfg ->
  (forall i, q <> output_name cfg i) ->
  (forall img, img ∈ ledger_of cfg w -> get_str img "output_path" <> Ok q) ->
  fs (world_of (resize_images_in_folder cfg listing w)) !! q = fs w !! q.
Proof.
  intros Hne Hq Hloaded. rewrite run_after_load.
  pose proof (sync_ledger_frame cfg listing (ledger_of cfg w)
                (after_load cfg w) q Hq Hloaded) as Hframe.
  rewrite fs_after_load in Hframe.
  destruct (sync_ledger _ _ _ _); cbn [world_of]; auto.
Qed.

Lemma run_touches_only_its_files_witness :
  fs (world_of (resize_images_in_folder Sample.cfg Sample.c_and_d
                  Sample.after_only_c)) !! "in/c.jpg"
  = fs Sample.after_only_c !! "in/c.jpg".
Proof.
  apply (run_touches_only_its_files Sample.cfg Sample.c_and_d
           Sample.after_only_c "in/c.jpg").
  - discriminate.
  - intros i. rewrite output_name_join. vm_compute (join_prefix _).
    discriminate.
  - intros img. vm_compute (ledger_of _ _).
    intros [->|[]%elem_of_nil]%elem_of_cons. discriminate.
Defined.

(** X11. A run that raises has not written the ledger file: provided
    the ledger file is not itself a numbered output name or an output
    recorded in the ledger, it holds after the raise what it held before
    the run. *)
Theorem raising_run_keeps_ledger (cfg : config)
    (listing : list (string * list string)) (w w' : world) (e : exn) :
  resize_images_in_folder cfg listing w = Raises e w' ->
  (forall i, json_file cfg <> output_name cfg i) ->
  (forall img, img ∈ ledger_of cfg w ->
               get_str img "output_path" <> Ok (json_file cfg)) ->
  fs w' !! json_file cfg = fs w !! json_file cfg.
Proof.
  intros Hrun Hq Hloaded. rewrite run_after_load in Hrun.
  pose proof (sync_ledger_frame cfg listing (ledger_of cfg w)
                (after_load cfg w) (json_file cfg) Hq Hloaded) as Hframe.
  rewrite Hrun, fs_after_load in Hframe. exact Hframe.
Qed.

(** A file of the output folder whose name starts with no digit is not
    a numbered output. *)
Lemma not_a_numbered_name (cfg : config) (name : string) (i : nat) :
  no_leading_digit name ->
  join_prefix (output_folder cfg) +:+ name <> output_name cfg i.
Proof.
  intros Hname. rewrite output_name_join. intros Heq%(inj (String.append _)).
  unfold numbered_name in Heq.
  destruct (pretty_nat_head i) as (c & s & Hs & Hc). rewrite Hs in Heq.
  rewrite string_app_cons in Heq. subst name. by apply Hname.
Qed.

Lemma sample_ledger_not_numbered (i : nat) :
  json_file Sample.cfg <> output_name Sample.cfg i.
Proof.
  apply (not_a_numbered_name Sample.cfg "processed_images.json").
  unfold no_leading_digit, is_digit. vm_compute. lia.
Qed.

Lemma raising_run_keeps_ledger_witness :
  fs (world_of (resize_images_in_folder Sample.cfg d_then_broken
                  Sample.after_abc)) !! json_file Sample.cfg
  = fs Sample.after_abc !! json_file Sample.cfg.
Proof.
  apply (raising_run_keeps_ledger Sample.cfg d_then_broken Sample.after_abc
           _ UnidentifiedImageError).
  - vm_compute. reflexivity.
  - apply sample_ledger_not_numbered.
  - intros img. vm_compute (ledger_of _ _). rewrite !elem_of_cons.
    intros [->|[->|[->|[]%elem_of_nil]]]; discriminate.
Defined.

Example raising_run_on_the_sample :
  exists w',
    resize_images_in_folder Sample.cfg d_then_broken Sample.after_abc
      = Raises UnidentifiedImageError w' /\
    is_Some (fs w' !! "out/4.jpg") /\
    ledger_of Sample.cfg w' = ledger_of Sample.cfg Sample.after_abc.
Proof. eexists. split_and!; [vm_compute; reflexivity|vm_compute; eauto|done]. Qed.

Lemma get_str_error (img : json) (key : string) (e : exn) :
  get_str img key = Err e -> e = KeyError \/ e = TypeError.
Proof.
  unfold get_str. destruct img; try (intros [= <-]; by right).
  destruct (lookup_field key fields) as [[]|]; intros [= <-]; auto.
Qed.

Lemma input_paths_error (l : list json) (img : json) (e0 : exn) :
  img ∈ l -> get_str img "input_path" = Err e0 ->
  exists e, input_paths l = Err e /\ (e = KeyError \/ e = TypeError).
Proof.
  induction l as [|i l IH]; intros Hin Herr; [by apply elem_of_nil in Hin|].
  cbn [input_paths].
  destruct (get_str i "input_path") as [p|e] eqn:Hi.
  - apply elem_of_cons in Hin as [->|Hin]; [congruence|].
    destruct (IH Hin Herr) as (e & -> & He). cbn. eauto.
  - cbn. eauto using get_str_error.
Qed.

(** X12. A ledger with an entry that has no ["input_path"] (it is not
    an object, or the key is missing) stops the run at line 109, before
    any file is looked at: the run raises [KeyError] or [TypeError] and
    the world is exactly as it was. *)
Theorem entry_without_input_path_aborts (cfg : config)
    (listing : list (string * list string)) (w : world) (img : json) :
  img ∈ ledger_of cfg w ->
  lacks_input_path img ->
  exists e,
    (e = KeyError \/ e = TypeError) /\
    resize_images_in_folder cfg listing w = Raises e w.
Proof.
  intros Hin Hlacks. rewrite run_after_load.
  assert (after_load cfg w = w) as ->.
  { revert Hin. unfold ledger_of, after_load.
    destruct (fs w !! json_file cfg) as [[? |[]| |]|]; try done;
      by intros ?%elem_of_nil. }
  assert (exists e0, get_str img "input_path" = Err e0) as [e0 He0].
  { unfold get_str. destruct img; eauto.
    unfold lacks_input_path in Hlacks. rewrite Hlacks. eauto. }
  destruct (input_paths_error _ _ _ Hin He0) as (e & Herr & He).
  exists e. split; [done|]. unfold sync_ledger, bind. by rewrite Herr.
Qed.

Lemma entry_without_input_path_aborts_witness :
  let w := {| fs := <[json_file Sample.cfg :=
                       JsonText (JArr [entry "in/a.jpg" "out/0.jpg";
                                       JObj [("output_path", JStr "out/1.jpg")]])]>
                      (fs Sample.fresh);
              console := [] |} in
  exists e,
    (e = KeyError \/ e = TypeError) /\
    resize_images_in_folder Sample.cfg Sample.abc w = Raises e w.
Proof.
  intros w.
  apply (entry_without_input_path_aborts Sample.cfg Sample.abc w
           (JObj [("output_path", JStr "out/1.jpg")])).
  - vm_compute (ledger_of _ _). right. left.
  - reflexivity.
Defined.

Lemma saved_ledger (cfg : config) (w1 : world) (saved : list json) :
  fs w1 !! json_file cfg = Some (JsonText (JArr saved)) ->
  ledger_of cfg w1 = saved.
Proof. unfold ledger_of. by intros ->. Qed.

(** Outputs written for the new paths of a run that returns. *)
Lemma new_outputs (cfg : config) (listing : list (string * list string))
    (w w1 : world) (p : string) :
  resize_images_in_folder cfg listing w = Returns () w1 ->
  (forall i, output_name cfg i <> json_file cfg) ->
  (forall img i, img ∈ ledger_of cfg w ->
     recorded_in (seen listing) img = false ->
     (start_index (ledger_of cfg w) <= i)%nat ->
     get_str img "output_path" <> Ok (output_name cfg i)) ->
  p ∈ discovered listing ->
  (forall img, img ∈ ledger_of cfg w -> get_str img "input_path" <> Ok p) ->
  exists i,
    (start_index (ledger_of cfg w) <= i)%nat /\
    entry p (output_name cfg i) ∈ ledger_of cfg w1 /\
    fs w1 !! output_name cfg i = Some (target_picture cfg).
Proof.
  intros Hrun Hjson Hstale Hp Hfresh. rewrite run_after_load in Hrun.
  destruct (sync_ledger_full _ _ _ _ _ Hrun)
    as (paths & news & Hpaths & Hfile & Hidx & _ & Hnews & Hout & _).
  destruct (input_paths_spec _ _ Hpaths) as [Hin _].
  assert (p ∈ news.*1) as Hnew.
  { apply Hnews. split; [done|]. rewrite Hin. intros (img & ? & ?).
    by apply (Hfresh img). }
  apply list_elem_of_fmap in Hnew as ([p' i] & -> & Hpi). cbn [fst].
  assert (i ∈ news.*2) as Hi.
  { apply list_elem_of_fmap. by exists (p', i). }
  assert (start_index (ledger_of cfg w) <= i)%nat as Hge.
  { rewrite Hidx, elem_of_seq in Hi. lia. }
  exists i. split_and!; [done| |].
  - rewrite (saved_ledger _ _ _ Hfile). apply list_elem_of_filter. split.
    + apply recorded_in_true. exists p'. split; [done|].
      by apply elem_of_list_to_set.
    + apply elem_of_app. right. unfold numbered_entries.
      apply list_elem_of_fmap. by exists (p', i).
  - apply Hout; [done|done|]. intros img Himg Hrec. by apply Hstale.
Qed.

(** X13. After a run that returns, every newly discovered path has its
    entry in the saved ledger, under a number from the start index on;
    and the output file that entry names exists and is a picture of
    exactly the target size, unless an entry pruned by this run names
    that very file (the pruning then deletes it).  The ledger file is
    taken not to be a numbered output name. *)
Theorem new_outputs_are_written (cfg : config)
    (listing : list (string * list string)) (w w1 : world) (p : string) :
  resize_images_in_folder cfg listing w = Returns () w1 ->
  (forall i, output_name cfg i <> json_file cfg) ->
  p ∈ discovered listing ->
  (forall img, img ∈ ledger_of cfg w -> get_str img "input_path" <> Ok p) ->
  exists i,
    (start_index (ledger_of cfg w) <= i)%nat /\
    entry p (output_name cfg i) ∈ ledger_of cfg w1 /\
    ((forall img, img ∈ ledger_of cfg w ->
        recorded_in (seen listing) img = false ->
        get_str img "output_path" <> Ok (output_name cfg i)) ->
     fs w1 !! output_name cfg i =
       Some (Picture {| width := target_width cfg;
                        height := target_height cfg |})).
Proof.
  intros Hrun Hjson Hp Hfresh. rewrite run_after_load in Hrun.
  destruct (sync_ledger_full _ _ _ _ _ Hrun)
    as (paths & news & Hpaths & Hfile & Hidx & _ & Hnews & Hout & _).
  destruct (input_paths_spec _ _ Hpaths) as [Hin _].
  assert (p ∈ news.*1) as Hnew.
  { apply Hnews. split; [done|]. rewrite Hin. intros (img & ? & ?).
    by apply (Hfresh img). }
  apply list_elem_of_fmap in Hnew as ([p' i] & -> & Hpi). cbn [fst].
  assert (i ∈ news.*2) as Hi.
  { apply list_elem_of_fmap. by exists (p', i). }
  assert (start_index (ledger_of cfg w) <= i)%nat as Hge.
  { rewrite Hidx, elem_of_seq in Hi. lia. }
  exists i. split_and!; [done| |].
  - rewrite (saved_ledger _ _ _ Hfile). apply list_elem_of_filter. split.
    + apply recorded_in_true. exists p'. split; [done|].
      by apply elem_of_list_to_set.
    + apply elem_of_app. right. unfold numbered_entries.
      apply list_elem_of_fmap. by exists (p', i).
  - intros Hstale. by apply Hout.
Qed.

(** The ledger holds c, d and e under 2, 4 and 5; e is gone and f is
    new.  The pruned entry carries 5, f is handed 4. *)
Lemma new_outputs_are_written_witness :
  exists i,
    (start_index (ledger_of Sample.cfg after_c_d_e) <= i)%nat /\
    entry "in/f.jpg" (output_name Sample.cfg i)
      ∈ ledger_of Sample.cfg
          (world_of (resize_images_in_folder Sample.cfg c_d_f
                       after_c_d_e)) /\
    ((forall img, img ∈ ledger_of Sample.cfg after_c_d_e ->
        recorded_in (seen c_d_f) img = false ->
        get_str img "output_path" <> Ok (output_name Sample.cfg i)) ->
     fs (world_of (resize_images_in_folder Sample.cfg c_d_f
                     after_c_d_e)) !! output_name Sample.cfg i =
       Some (Picture {| width := target_width Sample.cfg;
                        height := target_height Sample.cfg |})).
Proof.
  apply (new_outputs_are_written Sample.cfg c_d_f after_c_d_e).
  - vm_compute. reflexivity.
  - intros i Heq. by apply (sample_ledger_not_numbered i).
  - vm_compute (discovered _). set_solver.
  - intros img. vm_compute (ledger_of _ _). rewrite !elem_of_cons.
    intros [->|[->|[->|[]%elem_of_nil]]]; discriminate.
Defined.

(** There f is written to [out/4.jpg], and e's output is deleted. *)
Example new_output_next_to_a_pruned_entry :
  let w1 := world_of (resize_images_in_folder Sample.cfg c_d_f after_c_d_e) in
  ledger_of Sample.cfg w1 =
    [entry "in/c.jpg" "out/2.jpg"; entry "in/d.jpg" "out/4.jpg";
     entry "in/f.jpg" "out/4.jpg"] /\
  fs w1 !! "out/4.jpg" = Some (target_picture Sample.cfg) /\
  fs w1 !! "out/5.jpg" = None.
Proof. vm_compute. auto. Qed.

Lemma numbered_entries_app (cfg : config) (a b : list (string * nat)) :
  numbered_entries cfg (a ++ b)
  = numbered_entries cfg a ++ numbered_entries cfg b.
Proof. unfold numbered_entries. apply fmap_app. Qed.

Lemma numbered_entries_length (cfg : config) (a : list (string * nat)) :
  length (numbered_entries cfg a) = length a.
Proof. unfold numbered_entries. apply length_fmap. Qed.

(** X14. As long as no entry is pruned, the numbering never collides
    from run to run.  Call a ledger numbered when its outputs are
    numbered names of the output folder with distinct numbers, none
    above the number of entries (the empty ledger is one).  A run that
    returns and keeps every loaded entry turns a numbered ledger into a
    numbered ledger, and the output paths of the saved ledger are
    pairwise distinct. *)
Theorem numbering_without_pruning (cfg : config)
    (listing : list (string * list string)) (w w1 : world) :
  resize_images_in_folder cfg listing w = Returns () w1 ->
  numbered_ledger cfg (ledger_of cfg w) ->
  (forall img, img ∈ ledger_of cfg w ->
               recorded_in (seen listing) img = true) ->
  numbered_ledger cfg (ledger_of cfg w1) /\
  NoDup (outputs_of (ledger_of cfg w1)).
Proof.
  intros Hrun (pis & Hloaded & Hdistinct & Hbound) Hkept.
  rewrite run_after_load in Hrun.
  destruct (sync_ledger_full _ _ _ _ _ Hrun)
    as (paths & news & _ & Hfile & Hidx & _ & Hnews & _).
  rewrite filter_all in Hfile.
  2:{ intros img [?|Hnew]%elem_of_app; [by apply Hkept|].
      apply numbered_entry_fields in Hnew as (p & i & Hin & ->).
      apply recorded_in_true. exists p. split; [done|].
      apply elem_of_list_to_set, Hnews, list_elem_of_fmap. by exists (p, i). }
  rewrite (saved_ledger _ _ _ Hfile), Hloaded, <- numbered_entries_app.
  assert (length (ledger_of cfg w) = length pis) as Hlen.
  { by rewrite Hloaded, numbered_entries_length. }
  assert (forall i, i ∈ news.*2 ->
            (length pis < i \/ pis = [])%nat /\ (i <= length pis + length news)%nat)
    as Hfresh.
  { intros i. rewrite Hidx, elem_of_seq. unfold start_index.
    rewrite Hlen. destruct pis as [|pi pis]; cbn [length].
    - rewrite decide_False by lia. intros ?. split; [by right|lia].
    - rewrite decide_True by lia. intros ?. split; [left|]; lia. }
  assert (NoDup (pis ++ news).*2) as Hnodup.
  { rewrite fmap_app. apply NoDup_app. split_and!; [done| |].
    - intros i Hold Hnew. destruct (Hfresh i Hnew) as [[Hlt| ->] _].
      + specialize (Hbound i Hold). lia.
      + by apply elem_of_nil in Hold.
    - rewrite Hidx. apply NoDup_seq. }
  split.
  - exists (pis ++ news). split_and!; [done|done|].
    intros i. rewrite numbered_entries_length, length_app, fmap_app, elem_of_app.
    intros [Hold|Hnew].
    + specialize (Hbound i Hold). lia.
    + by destruct (Hfresh i Hnew).
  - rewrite outputs_of_numbered.
    assert (Inj (=) (=) (output_name cfg)) as Hinj
      by (intros i j; apply output_name_inj).
    by apply (NoDup_fmap_2 _).
Qed.

Lemma numbering_without_pruning_witness :
  numbered_ledger Sample.cfg
    (ledger_of Sample.cfg
       (world_of (resize_images_in_folder Sample.cfg Sample.abcde
                    Sample.after_abc))) /\
  NoDup (outputs_of
           (ledger_of Sample.cfg
              (world_of (resize_images_in_folder Sample.cfg Sample.abcde
                           Sample.after_abc)))).
Proof.
  apply (numbering_without_pruning Sample.cfg Sample.abcde Sample.after_abc).
  - vm_compute. reflexivity.
  - exists [("in/a.jpg", 0%nat); ("in/b.jpg", 1%nat); ("in/c.jpg", 2%nat)].
    split_and!.
    + vm_compute. reflexivity.
    + cbn. repeat (constructor; [set_solver|]). constructor.
    + intros i. vm_compute (length _). cbn. set_solver by lia.
  - intros img. vm_compute (ledger_of _ _). rewrite !elem_of_cons.
    intros [->|[->|[->|[]%elem_of_nil]]]; by vm_compute.
Defined.

(** X15. Run as a script on a folder without a ledger yet, the program
    gives every discovered picture an output that is 1200 pixels wide and
    2000 high: line 165 passes [target_height = 1200] in the place of
    [target_width] and [target_width = 2000] in the place of
    [target_height]. *)
Theorem script_outputs_are_1200_by_2000 (listing : list (string * list string))
    (w w1 : world) (p : string) :
  Script.main listing w = Returns () w1 ->
  ledger_of Script.cfg w = [] ->
  p ∈ discovered listing ->
  exists i,
    entry p (output_name Script.cfg i) ∈ ledger_of Script.cfg w1 /\
    fs w1 !! output_name Script.cfg i =
      Some (Picture {| width := 1200; height := 2000 |}).
Proof.
  intros Hrun Hempty Hp.
  destruct (new_outputs Script.cfg listing w w1 p Hrun) as (i & _ & Hi).
  - intros i Heq. symmetry in Heq. revert Heq.
    apply (not_a_numbered_name Script.cfg "processed_images.json").
    unfold no_leading_digit, is_digit. vm_compute. lia.
  - rewrite Hempty. by intros img i ?%elem_of_nil.
  - done.
  - rewrite Hempty. by intros img ?%elem_of_nil.
  - by exists i.
Qed.

Lemma script_outputs_are_1200_by_2000_witness :
  exists i,
    entry "in/a.jpg" (output_name Script.cfg i)
      ∈ ledger_of Script.cfg (world_of (Script.main Sample.abc Sample.fresh)) /\
    fs (world_of (Script.main Sample.abc Sample.fresh))
      !! output_name Script.cfg i =
      Some (Picture {| width := 1200; height := 2000 |}).
Proof.
  apply (script_outputs_are_1200_by_2000 Sample.abc Sample.fresh).
  - vm_compute. reflexivity.
  - reflexivity.
  - vm_compute (discovered _). set_solver.
Defined.

Lemma outputs_of_spec (l : list json) (o : string) :
  o ∈ outputs_of l <-> exists img, img ∈ l /\ get_str img "output_path" = Ok o.
Proof.
  unfold outputs_of. rewrite list_elem_of_omap. split.
  - intros (img & Hin & Ho). exists img. split; [done|].
    destruct (get_str img "output_path"); congruence.
  - intros (img & Hin & Ho). exists img. by rewrite Ho.
Qed.

Lemma well_formed_input_paths (l : list json) :
  (forall img, img ∈ l -> well_formed img) ->
  exists paths, input_paths l = Ok paths.
Proof.
  intros Hall. apply input_paths_total.
  intros img Himg. destruct (Hall img Himg) as (p & o & Hp & _). eauto.
Qed.

Lemma filter_nothing {A} (P : A -> Prop) `{!forall x, Decision (P x)}
    (l : list A) :
  (forall x, x ∈ l -> ~ P x) -> filter P l = [].
Proof.
  induction l as [|x l IH]; intros Hall; [done|].
  rewrite filter_cons_False by (apply Hall; left).
  apply IH. intros y Hy. apply Hall. by right.
Qed.

(** X16. When the walk finds no picture (an empty folder, or one with
    other files only), a run over a ledger whose entries have both
    fields returns, saves the empty ledger, and leaves no file at any
    output path the ledger recorded (other than the ledger file
    itself). *)
Theorem empty_folder_clears_the_ledger (cfg : config)
    (listing : list (string * list string)) (w : world) :
  discovered listing = [] ->
  (forall img, img ∈ ledger_of cfg w -> well_formed img) ->
  exists w1,
    resize_images_in_folder cfg listing w = Returns () w1 /\
    ledger_of cfg w1 = [] /\
    forall o, o ∈ outputs_of (ledger_of cfg w) -> o <> json_file cfg ->
              fs w1 !! o = None.
Proof.
  intros Hnone Hwf. rewrite run_after_load.
  destruct (well_formed_input_paths _ Hwf) as [paths Hpaths].
  unfold sync_ledger, bind, lift. rewrite Hpaths. cbn [ret].
  rewrite walk_flat, Hnone. cbn [for_each ret processed_images
                                 current_input_paths].
  destruct (prune_total ∅ (ledger_of cfg w) [] (after_load cfg w))
    as (updated & wp & Hprune); [by auto|].
  rewrite Hprune.
  destruct (prune_returns _ _ _ _ _ _ Hprune) as (-> & Hgone & _).
  assert (forall img, recorded_in ∅ img = false) as Hout.
  { intros img. unfold recorded_in.
    destruct (get_str img "input_path"); [|done].
    by apply bool_decide_eq_false. }
  eexists. split; [reflexivity|]. split.
  - apply saved_ledger. cbn [fs]. rewrite lookup_insert_eq.
    do 3 f_equal. cbn [app]. apply filter_nothing.
    intros img _. by rewrite Hout.
  - intros o (img & Himg & Ho)%outputs_of_spec Hne. cbn [fs].
    rewrite lookup_insert_ne by done.
    destruct (Hgone img Himg (Hout img)) as (p & o' & _ & _ & Ho' & Habsent).
    congruence.
Qed.

Lemma empty_folder_clears_the_ledger_witness :
  exists w1,
    resize_images_in_folder Sample.cfg notes_only Sample.after_abc
      = Returns () w1 /\
    ledger_of Sample.cfg w1 = [] /\
    forall o, o ∈ outputs_of (ledger_of Sample.cfg Sample.after_abc) ->
              o <> json_file Sample.cfg -> fs w1 !! o = None.
Proof.
  apply (empty_folder_clears_the_ledger Sample.cfg notes_only Sample.after_abc).
  - reflexivity.
  - intros img. vm_compute (ledger_of _ _). rewrite !elem_of_cons.
    intros [->|[->|[->|[]%elem_of_nil]]]; eexists _, _; split; reflexivity.
Defined.

(** X17. When a run returns.  With positive target sizes, a ledger
    whose entries have both fields, every discovered path either
    recorded in the ledger or holding a picture with positive sides
    (at least two pixels wide when the background is blurred), and no
    discovered path being a numbered name of the output folder, the run
    does not raise. *)
Theorem run_returns (cfg : config) (listing : list (string * list string))
    (w : world) :
  0 < target_width cfg -> 0 < target_height cfg ->
  (forall img, img ∈ ledger_of cfg w -> well_formed img) ->
  (forall p, p ∈ discovered listing ->
     p ∈ paths_of (ledger_of cfg w) \/ convertible cfg w p) ->
  (forall p i, p ∈ discovered listing -> p <> output_name cfg i) ->
  exists w1, resize_images_in_folder cfg listing w = Returns () w1.
Proof.
  intros Htw Hth Hwf Hall Hnames. rewrite run_after_load.
  destruct (well_formed_input_paths _ Hwf) as [paths Hpaths].
  destruct (input_paths_spec _ _ Hpaths) as [Hin _].
  unfold sync_ledger, bind, lift. rewrite Hpaths. cbn [ret].
  rewrite walk_flat. fold (initial_state (ledger_of cfg w) paths).
  destruct (walk_total cfg (discovered listing)
              (initial_state (ledger_of cfg w) paths) (after_load cfg w))
    as (st & wl & Hwalk); [done|done| |done|].
  { intros p Hp. destruct (Hall p Hp) as [Hrec|Hconv].
    - left. cbn. by apply Hin, paths_of_spec.
    - right. unfold convertible. by rewrite fs_after_load. }
  rewrite Hwalk.
  destruct (walk_full _ _ _ _ _ _ Hwalk) as (news & Himg & _).
  cbn [processed_images initial_state] in Himg.
  destruct (prune_total (current_input_paths st) (processed_images st) [] wl)
    as (updated & wp & ->).
  { intros img. rewrite Himg. intros [?|Hnew]%elem_of_app; right.
    - by apply Hwf.
    - apply numbered_entry_fields in Hnew as (p & i & _ & ->).
      by exists p, (output_name cfg i). }
  eexists. reflexivity.
Qed.

Lemma run_returns_witness :
  exists w1,
    resize_images_in_folder Sample.cfg Sample.abcde Sample.after_abc
      = Returns () w1.
Proof.
  apply (run_returns Sample.cfg Sample.abcde Sample.after_abc).
  - reflexivity.
  - reflexivity.
  - intros img. vm_compute (ledger_of _ _). rewrite !elem_of_cons.
    intros [->|[->|[->|[]%elem_of_nil]]]; eexists _, _; split; reflexivity.
  - intros p. vm_compute (discovered _). vm_compute (paths_of _).
    rewrite !elem_of_cons.
    intros [->|[->|[->|[->|[->|[]%elem_of_nil]]]]];
      [left; set_solver..| |];
      right; exists {| width := 4000; height := 3000 |};
      (split; [reflexivity|cbn; lia]).
  - intros p i. vm_compute (discovered _). rewrite !elem_of_cons.
    intros [->|[->|[->|[->|[->|[]%elem_of_nil]]]]];
      rewrite output_name_join; vm_compute (join_prefix _); discriminate.
Defined.
